(** * Skip-gram with negative sampling: the PytorchWord2Vec notebook

    A shallow embedding of [P004-Pytorch-Word2Vec/PytorchWord2Vec.ipynb]:
    vocabulary construction ([text_preprocess]), the example generator
    ([WordEmbeddingDataset]), the loss ([EmbeddingModel.forward]), the
    evaluation helpers ([evaluate], [find_nearest]) and the training loop.

    Python exceptions are results of an error monad; tensors carry their
    shape next to row-major data; float32 arithmetic and the reductions of
    numpy and torch are the operations of a [Scalar] interface, so that
    the statements about shapes and formulas hold whatever the rounding
    is. The interface is also instantiated with IEEE 754 binary32, where
    a statement depends on the float values themselves. *)

From Stdlib Require Import ZArith Lia Ascii String Sorted.
From Stdlib Require QArith Qabs.
From Corelib Require SpecFloat.
From stdpp Require Import base option list gmap strings.

#[local] Set Warnings "-abstract-large-number,-register-all".

Set Default Proof Using "Type".

(** ** Python results *)

Inductive exn : Type :=
  | NameError (name : string)
  | AttributeError (cls attr : string)
  | KeyError (key : string)
  | IndexError (msg : string)
  | RuntimeError (msg : string)
  | TypeError (msg : string)
  | ZeroDivisionError
  | FileNotFoundError (path : string).

Inductive result (A : Type) : Type :=
  | Ok (a : A)
  | Raise (e : exn).
Arguments Ok {A} a.
Arguments Raise {A} e.

#[global] Instance result_ret : MRet result := @Ok.
#[global] Instance result_bind : MBind result := λ A B f m,
  match m with Ok a => f a | Raise e => Raise e end.
#[global] Instance result_fmap : FMap result := λ A B f m,
  match m with Ok a => Ok (f a) | Raise e => Raise e end.

(** ** Hyperparameters (notebook cell 2) *)

Record hyper : Type := Hyper {
  K : nat;               (* negatives per context word *)
  C : nat;               (* window radius *)
  EPOCHS : nat;
  MAX_VOCAB_SIZE : nat;
  BATCH_SIZE : nat;
  EMBEDDING_SIZE : nat;
}.

Definition notebook : hyper :=
  {| K := 100; C := 3; EPOCHS := 2; MAX_VOCAB_SIZE := 30000;
     BATCH_SIZE := 128; EMBEDDING_SIZE := 100 |}.

(** ** Tokenizer: [text.lower()] and [word_tockenize]

    A text is given by the bytes of its UTF-8 encoding. On ASCII text
    (every byte below 128) [lower] is [str.lower()] and [is_space] is the
    whitespace at which [str.split()] cuts; bytes from 128 on are kept as
    they are, so beyond ASCII both agree with Python only where the text
    has no cased letter and no whitespace character. *)

Definition is_space (a : ascii) : bool :=
  let n := nat_of_ascii a in
  (n =? 32) || ((9 <=? n) && (n <=? 13)) || ((28 <=? n) && (n <=? 31)).

Definition lower_ascii (a : ascii) : ascii :=
  let n := nat_of_ascii a in
  if (65 <=? n) && (n <=? 90) then ascii_of_nat (n + 32) else a.

Fixpoint lower (s : string) : string :=
  match s with
  | EmptyString => EmptyString
  | String a s' => String (lower_ascii a) (lower s')
  end.

Definition flush (cur : string) (rest : list string) : list string :=
  match cur with EmptyString => rest | _ => cur :: rest end.

Fixpoint split_from (cur : string) (s : string) : list string :=
  match s with
  | EmptyString => flush cur []
  | String a s' =>
      if is_space a then flush cur (split_from EmptyString s')
      else split_from (cur +:+ String a EmptyString) s'
  end.

Definition word_tockenize (text : string) : list string :=
  split_from EmptyString text.

(** ** [collections.Counter] and insertion-ordered dicts

    A dict whose iteration order matters is an association list in
    insertion order with unique keys. *)

Abbreviation odict := (list (string * Z)).

Fixpoint counter_add (w : string) (c : odict) : odict :=
  match c with
  | [] => [(w, 1%Z)]
  | (k, v) :: rest =>
      if String.eqb k w then (k, (v + 1)%Z) :: rest
      else (k, v) :: counter_add w rest
  end.

Definition Counter (text : list string) : odict :=
  fold_left (λ c w, counter_add w c) text [].

(** [sorted(items, key=count, reverse=True)]: stable, so equal counts keep
    their encounter order. *)
Fixpoint insert_desc (x : string * Z) (s : odict) : odict :=
  match s with
  | [] => [x]
  | y :: s' => if (x.2 <? y.2)%Z then y :: insert_desc x s' else x :: s
  end.

Fixpoint sort_desc (c : odict) : odict :=
  match c with
  | [] => []
  | x :: c' => insert_desc x (sort_desc c')
  end.

Definition most_common (n : nat) (c : odict) : odict :=
  take n (sort_desc c).

(** [d[k] = v]: an existing key keeps its position. *)
Fixpoint dict_set (k : string) (v : Z) (d : odict) : odict :=
  match d with
  | [] => [(k, v)]
  | (k', v') :: rest =>
      if String.eqb k' k then (k', v) :: rest
      else (k', v') :: dict_set k v rest
  end.

Definition keys (d : odict) : list string := d.*1.
Definition values (d : odict) : list Z := d.*2.

Definition sumZ (l : list Z) : Z := fold_right Z.add 0%Z l.

Definition UNK : string := "<unk>".

(** The local [vocab] of [text_preprocess], for the token list [text]. *)
Definition vocab_of (h : hyper) (text : list string) : odict :=
  let vocab := most_common (MAX_VOCAB_SIZE h - 1) (Counter text) in
  dict_set UNK (Z.of_nat (length text) - sumZ (values vocab))%Z vocab.

(** [{word: i for i, word in enumerate(idx2word)}] *)
Definition enumerate_dict (ws : list string) : gmap string nat :=
  fold_left (λ m iw, <[iw.2 := iw.1]> m) (zip (seq 0 (length ws)) ws) ∅.

(** ** Scalars

    float32 values with the arithmetic the notebook uses. [fsum] is a
    library reduction ([np.sum], [Tensor.sum], the inner sum of [bmm]) whose
    association order the libraries do not fix. *)

Class Scalar (F : Type) : Type := {
  of_count : Z → F;            (* np.array(..., dtype=np.float32) *)
  fadd : F → F → F;
  fmul : F → F → F;
  fdiv : F → F → F;
  fneg : F → F;
  fpow34 : F → F;              (* x ** (3./4.) *)
  fsum : list F → F;
  fmean : list F → F;          (* Tensor.mean() *)
  logsigmoid : F → F;          (* F.logsigmoid *)
}.

(** [float(x)] of a Python int that went through a float32 tensor
    ([torch.Tensor(list).long()]): round to a 24-bit significand, ties to
    even. Integers up to 2^24 are exact. *)
Definition f32_of_int (n : Z) : Z :=
  let a := Z.abs n in
  if (a <=? 2 ^ 24)%Z then n
  else
    let e := (Z.log2 a - 23)%Z in
    let q := (a / 2 ^ e)%Z in
    let r := (a mod 2 ^ e)%Z in
    let half := (2 ^ (e - 1))%Z in
    let q' := if (r <? half)%Z then q
              else if (half <? r)%Z then (q + 1)%Z
              else if Z.even q then q else (q + 1)%Z in
    (Z.sgn n * q' * 2 ^ e)%Z.

(** ** [text_preprocess] *)

Record preprocessed (F : Type) : Type := Preprocessed {
  text : list string;
  idx2word : list string;
  word2idx : gmap string Z;
  word_freqs : list F;
  word_counts : list F;
  vocab_size : nat;
}.
Arguments Preprocessed {F}.
Arguments text {F}.
Arguments idx2word {F}.
Arguments word2idx {F}.
Arguments word_freqs {F}.
Arguments word_counts {F}.
Arguments vocab_size {F}.

(** The training file is given by its content, the text that
    [f.read()] returns. *)
Definition text_preprocess `{Scalar F} (h : hyper) (file : string)
  : preprocessed F :=
  let text := word_tockenize (lower file) in
  let vocab := vocab_of h text in
  let idx2word := keys vocab in
  let word2idx := Z.of_nat <$> enumerate_dict idx2word in
  let word_counts := of_count <$> values vocab in
  let word_freqs := (λ x, fdiv x (fsum word_counts)) <$> word_counts in
  let word_freqs := fpow34 <$> word_freqs in
  let word_freqs := (λ x, fdiv x (fsum word_freqs)) <$> word_freqs in
  Preprocessed text idx2word word2idx word_freqs word_counts (length idx2word).

(** ** Python sequences *)

(** [range(a, b)] *)
Definition range (a b : Z) : list Z :=
  (λ k, (a + Z.of_nat k)%Z) <$> seq 0 (Z.to_nat (b - a)).

(** [a % n] *)
Definition py_mod (a n : Z) : result Z :=
  if (n =? 0)%Z then Raise ZeroDivisionError else Ok (a mod n)%Z.

(** [l[i]] with Python's negative indices. *)
Definition py_index {A} (l : list A) (i : Z) : result A :=
  let n := Z.of_nat (length l) in
  let j := if (i <? 0)%Z then (i + n)%Z else i in
  if (j <? 0)%Z then Raise (IndexError "index out of range")
  else match l !! Z.to_nat j with
       | Some x => Ok x
       | None => Raise (IndexError "index out of range")
       end.

(** ** Random source and [torch.multinomial(weights, n, True)] *)

Class Sampler (F : Type) : Type := {
  rng : Type;
  valid_weights : list F → bool;   (* weights the sampler accepts: finite,
                                      non-negative, of positive sum *)
  draw1 : list F → rng → Z * rng;  (* one categorical draw *)
}.

Fixpoint draws `{Sampler F} (ws : list F) (n : nat) (s : rng)
  : list Z * rng :=
  match n with
  | O => ([], s)
  | S n' =>
      let '(i, s1) := draw1 ws s in
      let '(l, s2) := draws ws n' s1 in
      (i :: l, s2)
  end.

Definition multinomial_replacement `{Sampler F}
    (ws : list F) (n : nat) (s : rng) : result (list Z * rng) :=
  if negb (valid_weights ws) then
    Raise (RuntimeError "invalid multinomial distribution")
  else if (n =? 0)%nat then
    Raise (RuntimeError "cannot sample n_sample <= 0 samples")
  else Ok (draws ws n s).

(** ** [WordEmbeddingDataset] *)

Record WordEmbeddingDataset (F : Type) : Type := Dataset {
  text_encoded : list Z;
  ds_word2idx : gmap string Z;
  ds_idx2word : list string;
  ds_word_freqs : list F;
  ds_word_counts : list F;
}.
Arguments Dataset {F}.
Arguments text_encoded {F}.
Arguments ds_word2idx {F}.
Arguments ds_idx2word {F}.
Arguments ds_word_freqs {F}.
Arguments ds_word_counts {F}.

(** [__init__]; [VOCAB_SIZE] is the notebook global read by the body. *)
Definition dataset_init {F} (VOCAB_SIZE : nat) (text : list string)
    (word2idx : gmap string Z) (idx2word : list string)
    (word_freqs word_counts : list F) : WordEmbeddingDataset F :=
  let encoded :=
    (λ t, default (Z.of_nat VOCAB_SIZE - 1)%Z (word2idx !! t)) <$> text in
  Dataset (f32_of_int <$> encoded) word2idx idx2word word_freqs word_counts.

Definition dataset_len {F} (ds : WordEmbeddingDataset F) : nat :=
  length (text_encoded ds).

(** The positions read by [__getitem__] before they index the corpus. *)
Definition pos_indices (h : hyper) (len : nat) (idx : Z) : result (list Z) :=
  let c := Z.of_nat (C h) in
  mapM (λ i, py_mod i (Z.of_nat len))
       (range (idx - c) idx ++ range (idx + 1) (idx + c + 1)).

Record example : Type := Example_ {
  center_word : Z;
  pos_words : list Z;
  neg_words : list Z;
}.

Definition getitem `{Sampler F} (h : hyper) (ds : WordEmbeddingDataset F)
    (idx : Z) (s : rng) : result (example * rng) :=
  center ← py_index (text_encoded ds) idx;
  pos_ix ← pos_indices h (length (text_encoded ds)) idx;
  pos ← mapM (py_index (text_encoded ds)) pos_ix;
  '(neg, s') ← multinomial_replacement (ds_word_freqs ds)
                  (K h * length pos) s;
  Ok (Example_ center pos neg, s').

(** ** Tensors: a shape and row-major data *)

Record tensor (A : Type) : Type := Tensor {
  shape : list nat;
  data : list A;
}.
Arguments Tensor {A}.
Arguments shape {A}.
Arguments data {A}.

(** [k] consecutive blocks of [n] elements. *)
Fixpoint chunks {A} (k n : nat) (l : list A) : list (list A) :=
  match k with
  | O => []
  | S k' => take n l :: chunks k' n (drop n l)
  end.

(** Every [stride]-th element from offset [c], [m] of them. *)
Fixpoint strided {A} (stride c m : nat) (l : list A) : list A :=
  match m with
  | O => []
  | S m' => take 1 (drop c l) ++ strided stride c m' (drop stride l)
  end.

Inductive batch : Type := Batch {
  input_labels : tensor Z;
  pos_labels : tensor Z;
  neg_labels : tensor Z;
}.

(** The default collate function of [DataLoader]: stack the examples. *)
Definition collate (exs : list example) : batch :=
  let b := length exs in
  let p := from_option (λ e, length (pos_words e)) 0 (head exs) in
  let n := from_option (λ e, length (neg_words e)) 0 (head exs) in
  Batch (Tensor [b] (center_word <$> exs))
        (Tensor [b; p] (exs ≫= pos_words))
        (Tensor [b; n] (exs ≫= neg_words)).

(** Sizes of the batches a [DataLoader] without [drop_last] yields over
    [n] examples, for [0 < n] and a positive batch size. Cell 11 builds
    its loader with [shuffle=True], which raises [ValueError] on an empty
    dataset: the function describes no loader for [n = 0]. *)
Definition batch_sizes (n bs : nat) : list nat :=
  replicate (n / bs) bs ++ (if (n mod bs =? 0)%nat then [] else [n mod bs]).

Section Model.
Context {F : Type} `{Scalar F}.

Definition dot (u v : list F) : F := fsum (zip_with fmul u v).

(** An [n×m] by [m×p] product on row-major data. *)
Definition matmul (n m p : nat) (a b : list F) : list F :=
  chunks n m a ≫= λ row, (λ c, dot row (strided p c m b)) <$> seq 0 p.

Definition bmm (a b : tensor F) : result (tensor F) :=
  match shape a, shape b with
  | [ba; n; m], [bb; m'; p] =>
      if ((ba =? bb) && (m =? m'))%nat then
        Ok (Tensor [ba; n; p]
              (mjoin (zip_with (matmul n m p)
                        (chunks ba (n * m) (data a))
                        (chunks ba (m * p) (data b)))))
      else Raise (RuntimeError "bmm: batch or inner sizes differ")
  | _, _ => Raise (RuntimeError "bmm: expected 3D tensors")
  end.

Definition unsqueeze (d : nat) (t : tensor F) : result (tensor F) :=
  if (d <=? length (shape t))%nat then
    Ok (Tensor (take d (shape t) ++ [1] ++ drop d (shape t)) (data t))
  else Raise (IndexError "Dimension out of range").

(** [t.squeeze()]: every dimension of size one goes. *)
Definition squeeze (t : tensor F) : tensor F :=
  Tensor (filter (λ d, d ≠ 1) (shape t)) (data t).

Definition tmap (f : F → F) (t : tensor F) : tensor F :=
  Tensor (shape t) (f <$> data t).

(** [t.sum(1)] *)
Definition sum1 (t : tensor F) : result (tensor F) :=
  match shape t with
  | d0 :: d1 :: rest =>
      let inner := foldr Nat.mul 1 rest in
      Ok (Tensor (d0 :: rest)
            (chunks d0 (d1 * inner) (data t) ≫= λ blk,
               (λ j, fsum (strided inner j d1 blk)) <$> seq 0 inner))
  | _ => Raise (IndexError
           "Dimension out of range (expected to be in range of [-1, 0], but got 1)")
  end.

(** [a + b] for equal shapes; the two operands of the only sum in
    [forward] always have the same shape (see [forward_add_same_shape]),
    so broadcasting is left out. *)
Definition tadd (a b : tensor F) : result (tensor F) :=
  if decide (shape a = shape b) then
    Ok (Tensor (shape a) (zip_with fadd (data a) (data b)))
  else Raise (RuntimeError "tensors of different shapes").

(** [t.size(0)] *)
Definition size0 {A} (t : tensor A) : result nat :=
  match shape t with
  | d :: _ => Ok d
  | [] => Raise (IndexError "dimension specified as 0 but tensor has no dimensions")
  end.

(** [nn.Embedding]: one row of [embedding_dim] scalars per index. *)
Record Embedding : Type := {
  embedding_dim : nat;
  weight : list (list F);
}.

Definition embedding_row (e : Embedding) (i : Z) : result (list F) :=
  if (i <? 0)%Z then Raise (IndexError "index out of range in self")
  else match weight e !! Z.to_nat i with
       | Some r => Ok r
       | None => Raise (IndexError "index out of range in self")
       end.

Definition embedding (e : Embedding) (ix : tensor Z) : result (tensor F) :=
  rows ← mapM (embedding_row e) (data ix);
  Ok (Tensor (shape ix ++ [embedding_dim e]) (mjoin rows)).

Record EmbeddingModel : Type := {
  in_embed : Embedding;
  out_embed : Embedding;
}.

Definition forward (m : EmbeddingModel) (b : batch) : result (tensor F) :=
  batch_size ← size0 (input_labels b);
  input_embedding ← embedding (in_embed m) (input_labels b);
  pos_embedding ← embedding (out_embed m) (pos_labels b);
  neg_embedding ← embedding (out_embed m) (neg_labels b);
  u ← unsqueeze 2 input_embedding;
  log_pos ← squeeze <$> bmm pos_embedding u;
  u' ← unsqueeze 2 input_embedding;
  log_neg ← squeeze <$> bmm neg_embedding (tmap fneg u');
  log_pos ← sum1 (tmap logsigmoid log_pos);
  log_neg ← sum1 (tmap logsigmoid log_neg);
  loss ← tadd log_pos log_neg;
  Ok (tmap fneg loss).

Definition input_embeddings (m : EmbeddingModel) : list (list F) :=
  weight (in_embed m).

(** [nn.Embedding(vocab_size, embed_size)] once [weight.data.uniform_]
    has filled it: [init i j] is the value the random source left at row
    [i], column [j]. What is proved of the tables holds for any such
    values. *)
Definition Embedding_init (vocab_size embed_size : nat)
    (init : nat → nat → F) : Embedding :=
  {| embedding_dim := embed_size;
     weight := (λ i, init i <$> seq 0 embed_size) <$> seq 0 vocab_size |}.

(** [__init__]: [initrange = 0.5 / self.embed_size] is computed before
    the tables are built and raises for an embedding size of 0. *)
Definition EmbeddingModel_init (vocab_size embed_size : nat)
    (init_in init_out : nat → nat → F) : result EmbeddingModel :=
  if (embed_size =? 0)%nat then Raise ZeroDivisionError
  else Ok {| in_embed := Embedding_init vocab_size embed_size init_in;
             out_embed := Embedding_init vocab_size embed_size init_out |}.

End Model.
Arguments Embedding F : clear implicits.
Arguments EmbeddingModel F : clear implicits.

(** ** Notebook globals and the evaluation helpers (cell 18) *)

(** scipy, sklearn and numpy functions used by the helpers. *)
Class Stats (F : Type) : Type := {
  corr : Type;                                  (* SpearmanrResult *)
  spearmanr : list F → list F → corr;
  cosine_similarity : list F → list F → F;
  cosine : list F → list F → F;                 (* scipy.spatial.distance *)
  argsort : list F → list Z;
}.

Inductive value (F : Type) : Type :=
  | VDict (d : gmap string Z)
  | VWords (l : list string)
  | VArray (a : list (list F))
  | VOther.
Arguments VDict {F}.
Arguments VWords {F}.
Arguments VArray {F}.
Arguments VOther {F}.

(** A benchmark row: [word1], [word2], human score. *)
Abbreviation row F := (string * string * F)%type.

Definition tab : string := String (ascii_of_nat 9) EmptyString.

Definition ends_with (s suffix : string) : bool :=
  let n := String.length s in
  let k := String.length suffix in
  (k <=? n)%nat && String.eqb (substring (n - k) k s) suffix.

Section Helpers.
Context {F : Type} `{Stats F}.

Abbreviation globals := (gmap string (value F)).

(** Reading a global name. *)
Definition load_global (g : globals) (name : string) : result (value F) :=
  match g !! name with
  | Some v => Ok v
  | None => Raise (NameError name)
  end.

Definition as_dict (name : string) (v : value F) : result (gmap string Z) :=
  match v with
  | VDict d => Ok d
  | _ => Raise (TypeError name)
  end.

Definition as_words (name : string) (v : value F) : result (list string) :=
  match v with
  | VWords l => Ok l
  | _ => Raise (TypeError name)
  end.

Definition as_array (name : string) (v : value F)
  : result (list (list F)) :=
  match v with
  | VArray a => Ok a
  | _ => Raise (TypeError name)
  end.

(** [d[k]] *)
Definition dict_get (d : gmap string Z) (k : string) : result Z :=
  match d !! k with
  | Some i => Ok i
  | None => Raise (KeyError k)
  end.

(** [pd.read_csv(filename, sep=...)], as the rows it yields. *)
Variable read_csv : string → string → result (list (row F)).

(** One turn of the loop of [evaluate] over the accumulators
    [(human_similarity, model_similarity)]. *)
Definition evaluate_row (g : globals) (embedding_weights : list (list F))
    (acc : list F * list F) (r : row F) : result (list F * list F) :=
  let '(word1, word2, score) := r in
  d1 ← load_global g "word_to_idx" ≫= as_dict "word_to_idx";
  skip ←
    (if decide (d1 !! word1 = None) then Ok true
     else d2 ← load_global g "word_to_idx" ≫= as_dict "word_to_idx";
          Ok (bool_decide (d2 !! word2 = None)));
  if (skip : bool) then Ok acc
  else
    d ← load_global g "word_to_idx" ≫= as_dict "word_to_idx";
    word1_idx ← dict_get d word1;
    d' ← load_global g "word_to_idx" ≫= as_dict "word_to_idx";
    word2_idx ← dict_get d' word2;
    word1_embed ← py_index embedding_weights word1_idx;
    word2_embed ← py_index embedding_weights word2_idx;
    Ok (acc.1 ++ [score],
        acc.2 ++ [cosine_similarity word1_embed word2_embed]).

Fixpoint evaluate_rows (g : globals) (embedding_weights : list (list F))
    (acc : list F * list F) (rows : list (row F))
  : result (list F * list F) :=
  match rows with
  | [] => Ok acc
  | r :: rows' =>
      acc' ← evaluate_row g embedding_weights acc r;
      evaluate_rows g embedding_weights acc' rows'
  end.

Definition read_benchmark (filename : string) : result (list (row F)) :=
  if ends_with filename ".csv" then read_csv filename ","
  else read_csv filename tab.

Definition evaluate (g : globals) (filename : string)
    (embedding_weights : list (list F)) : result corr :=
  data ← read_benchmark filename;
  '(human_similarity, model_similarity) ←
    evaluate_rows g embedding_weights ([], []) data;
  Ok (spearmanr human_similarity model_similarity).

Definition find_nearest (g : globals) (word : string)
  : result (list string) :=
  d ← load_global g "word_to_idx" ≫= as_dict "word_to_idx";
  index ← dict_get d word;
  w ← load_global g "embedding_weights" ≫= as_array "embedding_weights";
  embedding ← py_index w index;
  w' ← load_global g "embedding_weights" ≫= as_array "embedding_weights";
  let cos_dis := (λ e, cosine e embedding) <$> w' in
  mapM (λ i, l ← load_global g "idx_to_word" ≫= as_words "idx_to_word";
             py_index l i)
       (take 10 (argsort cos_dis)).

End Helpers.

(** ** The model object (cell 17) and the training loop (cell 20) *)

(** Module-level names bound by the cells that run before the loop, and
    by the loop itself. *)
Definition names_before_loop : list string :=
  [ "torch"; "nn"; "F"; "tud"; "Parameter"; "Counter"; "np"; "random";
    "math"; "pd"; "scipy"; "sklearn"; "cosine_similarity";
    "USE_CUDA"; "NUM_CUDA"; "SEED"; "K"; "C"; "EPOCHS"; "MAX_VOCAB_SIZE";
    "BATCH_SIZE"; "LEARNING_RATE"; "EMBEDDING_SIZE"; "LOG_FILE";
    "TRAIN_FILE"; "EVAL_FILE"; "TEST_FILE";
    "word_tockenize"; "text_preprocess";
    "text"; "idx2word"; "word2idx"; "word_freqs"; "word_counts";
    "VOCAB_SIZE"; "WordEmbeddingDataset"; "dataset"; "dataloader";
    "iterloader"; "EmbeddingModel"; "model"; "evaluate"; "find_nearest" ].

Definition names_in_loop : list string :=
  [ "optimizer"; "e"; "i"; "input_labels"; "pos_labels"; "neg_labels";
    "loss"; "fout"; "embedding_weights"; "sim_simlex"; "sim_men";
    "sim_353" ].

Definition notebook_names : list string :=
  names_before_loop ++ names_in_loop.

(** Attributes of [nn.Module] that the notebook touches, and those of the
    two classes a [model] can have. [Module.__getattr__] raises
    [AttributeError] for any other name; [nn.DataParallel] keeps the
    wrapped network under [module] and forwards no attribute of it. *)
Definition Module_attrs : list string :=
  [ "forward"; "parameters"; "state_dict"; "cuda"; "cpu"; "train"; "eval" ].

Definition EmbeddingModel_attrs : list string :=
  [ "vocab_size"; "embed_size"; "in_embed"; "out_embed";
    "input_embeddings" ] ++ Module_attrs.

Definition DataParallel_attrs : list string :=
  [ "module"; "dim"; "device_ids"; "output_device"; "replicate"; "scatter";
    "parallel_apply"; "gather" ] ++ Module_attrs.

Section Training.
Context {F : Type} `{Scalar F} `{Stats F}.

Inductive pymodel : Type :=
  | Plain (m : EmbeddingModel F)
  | DataParallel (devices : nat) (module : EmbeddingModel F).

Definition network (model : pymodel) : EmbeddingModel F :=
  match model with Plain m => m | DataParallel _ m => m end.

Definition class_name (model : pymodel) : string :=
  match model with
  | Plain _ => "EmbeddingModel"
  | DataParallel _ _ => "DataParallel"
  end.

Definition attrs (model : pymodel) : list string :=
  match model with
  | Plain _ => EmbeddingModel_attrs
  | DataParallel _ _ => DataParallel_attrs
  end.

(** [model.name] *)
Definition getattr (model : pymodel) (name : string) : result unit :=
  if bool_decide (name ∈ attrs model) then Ok ()
  else Raise (AttributeError (class_name model) name).

(** [model.cuda()] moves the parameters and returns the object. *)
Definition cuda (model : pymodel) : pymodel := model.

(** Cell 17. *)
Definition setup_model (USE_CUDA : bool) (NUM_CUDA : nat)
    (m : EmbeddingModel F) : pymodel :=
  let model := Plain m in
  let model := if USE_CUDA then cuda model else model in
  if (1 <? NUM_CUDA)%nat then DataParallel NUM_CUDA (network model)
  else model.

(** [model.input_embeddings()] *)
Definition call_input_embeddings (model : pymodel)
  : result (list (list F)) :=
  _ ← getattr model "input_embeddings";
  Ok (input_embeddings (network model)).

Variable read_csv : string → string → result (list (row F)).
(** [loss.backward(); optimizer.step()] on the network. *)
Variable sgd_step : EmbeddingModel F → batch → EmbeddingModel F.
(** The forward pass of [nn.DataParallel]: scatter, replicate, apply,
    gather. *)
Variable parallel_forward :
  nat → EmbeddingModel F → batch → result (tensor F).

(** [model(input_labels, pos_labels, neg_labels)] *)
Definition call_model (model : pymodel) (b : batch) : result (tensor F) :=
  match model with
  | Plain m => forward m b
  | DataParallel n m => parallel_forward n m b
  end.

Definition step_model (model : pymodel) (b : batch) : pymodel :=
  match model with
  | Plain m => Plain (sgd_step m b)
  | DataParallel n m => DataParallel n (sgd_step m b)
  end.

Inductive log_line : Type :=
  | LossLine (e i : nat) (loss : F)
  | EvalLine (e i : nat) (simlex men sim353 : corr) (nearest : list string).

Record train_state : Type := TrainState {
  model : pymodel;
  env : gmap string (value F);
  log_file : list log_line;
  saved : list (list (list F));      (* np.save at the end of an epoch *)
}.

Definition bind_names (names : list string) (g : gmap string (value F))
  : gmap string (value F) :=
  foldr (λ n g, <[n := VOther]> g) g names.

(** The body of [if i % 2000 == 0]. *)
Definition evaluation_step (e i : nat) (st : train_state)
  : result train_state :=
  embedding_weights ← call_input_embeddings (model st);
  let g := <["embedding_weights" := VArray embedding_weights]> (env st) in
  sim_simlex ← evaluate read_csv g "simlex-999.txt" embedding_weights;
  let g := <["sim_simlex" := VOther]> g in
  sim_men ← evaluate read_csv g "men.txt" embedding_weights;
  let g := <["sim_men" := VOther]> g in
  sim_353 ← evaluate read_csv g "wordsim353.csv" embedding_weights;
  let g := <["sim_353" := VOther]> (<["fout" := VOther]> g) in
  nearest ← find_nearest g "monster";
  nearest' ← find_nearest g "monster";
  Ok (TrainState (model st) g
        (log_file st ++ [EvalLine e i sim_simlex sim_men sim_353 nearest'])
        (saved st)).

(** One turn of the inner [for] loop. *)
Definition iteration (e i : nat) (b : batch) (st : train_state)
  : result train_state :=
  let g := bind_names ["e"; "i"; "input_labels"; "pos_labels";
                       "neg_labels"] (env st) in
  loss_vec ← call_model (model st) b;
  let loss := fmean (data loss_vec) in
  let g := <["loss" := VOther]> g in
  let model' := step_model (model st) b in
  let st1 :=
    if (i mod 100 =? 0)%nat then
      TrainState model' (<["fout" := VOther]> g)
        (log_file st ++ [LossLine e i loss]) (saved st)
    else TrainState model' g (log_file st) (saved st) in
  if (i mod 2000 =? 0)%nat then evaluation_step e i st1 else Ok st1.

Fixpoint run_batches (e i : nat) (bs : list batch) (st : train_state)
  : result train_state :=
  match bs with
  | [] => Ok st
  | b :: bs' => st' ← iteration e i b st; run_batches e (S i) bs' st'
  end.

(** The three statements that close an epoch. *)
Definition end_of_epoch (st : train_state) : result train_state :=
  embedding_weights ← call_input_embeddings (model st);
  Ok (TrainState (model st)
        (<["embedding_weights" := VArray embedding_weights]> (env st))
        (log_file st) (saved st ++ [embedding_weights])).

(** [for e in range(EPOCHS)], over the batches the loader yields in
    each epoch. *)
Fixpoint run_epochs (epochs : list nat) (loader : nat → list batch)
    (st : train_state) : result train_state :=
  match epochs with
  | [] => Ok st
  | e :: rest =>
      st1 ← run_batches e 0 (loader e) (TrainState (model st)
               (<["e" := VOther]> (env st)) (log_file st) (saved st));
      st2 ← end_of_epoch st1;
      run_epochs rest loader st2
  end.

Definition train (h : hyper) (loader : nat → list batch)
    (st : train_state) : result train_state :=
  run_epochs (seq 0 (EPOCHS h)) loader
    (TrainState (model st) (<["optimizer" := VOther]> (env st))
       (log_file st) (saved st)).

End Training.

(** ** Concrete interfaces for closed examples

    Symbolic scalars: every operation builds the term it computes, so an
    evaluated example shows the formula the code applies. *)

Inductive sym : Type :=
  | SConst (z : Z)
  | SAdd (a b : sym)
  | SMul (a b : sym)
  | SDiv (a b : sym)
  | SNeg (a : sym)
  | SPow34 (a : sym)
  | SSum (l : list sym)
  | SMean (l : list sym)
  | SLogSigmoid (a : sym)
  | SCosSim (u v : list sym)
  | SCosDist (u v : list sym).

#[global] Instance sym_scalar : Scalar sym := {|
  of_count := SConst; fadd := SAdd; fmul := SMul; fdiv := SDiv;
  fneg := SNeg; fpow34 := SPow34; fsum := SSum; fmean := SMean;
  logsigmoid := SLogSigmoid;
|}.

(** Statistics kept symbolic as well; [argsort] of this instance is the
    identity order. *)
#[global] Instance sym_stats : Stats sym := {|
  corr := list sym * list sym;
  spearmanr := pair;
  cosine_similarity := SCosSim;
  cosine := SCosDist;
  argsort := λ l, Z.of_nat <$> seq 0 (length l);
|}.

(** A deterministic sampler that walks through the categories. *)
#[global] Instance cyclic_sampler : Sampler sym := {|
  rng := nat;
  valid_weights := λ ws, negb (bool_decide (ws = []));
  draw1 := λ ws s, (Z.of_nat (s mod length ws), S s);
|}.

(** Globals of the notebook once cells 1 to 18 have run. *)
Definition globals_before_loop {F} (p : preprocessed F)
  : gmap string (value F) :=
  <["word2idx" := VDict (word2idx p)]>
    (<["idx2word" := VWords (idx2word p)]>
       (foldr (λ n g, <[n := VOther]> g) ∅ names_before_loop)).

(** A benchmark file system for examples: one file with two pairs, one
    with a header line only, nothing else. *)
Definition bench_fs (filename sep : string) : result (list (row sym)) :=
  if String.eqb filename "men.txt" then
    Ok [("tiger", "cat", SConst 7); ("tiger", "zebra", SConst 3)]
  else if String.eqb filename "header-only.txt" then Ok []
  else Raise (FileNotFoundError filename).

(** A training corpus that holds both words of the first pair. *)
Definition pets : preprocessed sym :=
  text_preprocess notebook "tiger cat tiger monster".

Definition pets_weights : list (list sym) :=
  (λ i, [SConst (Z.of_nat i); SConst 1]) <$> seq 0 (vocab_size pets).

(** Cells 6 and 11: the dataset built from the training file. *)
Definition notebook_dataset `{Scalar F} (h : hyper) (file : string)
  : WordEmbeddingDataset F :=
  let p := text_preprocess h file in
  dataset_init (vocab_size p) (text p) (word2idx p) (idx2word p)
    (word_freqs p) (word_counts p).



(** Row [i] of an embedding table. *)
Definition row_of {F} (e : Embedding F) (i : Z) : list F :=
  default [] (weight e !! Z.to_nat i).

(** The loss of one training example as the specification words it: minus
    the sum of the log-sigmoid scores of the context words and of the
    negatives, a negative being scored against the negated center row. *)
Definition example_loss `{Scalar F} (m : EmbeddingModel F) (e : example) : F :=
  let c := row_of (in_embed m) (center_word e) in
  fneg (fadd
    (fsum ((λ o, logsigmoid (dot (row_of (out_embed m) o) c))
             <$> pos_words e))
    (fsum ((λ o, logsigmoid (dot (row_of (out_embed m) o) (fneg <$> c)))
             <$> neg_words e))).

(** The scores of one example before [logsigmoid]. *)
Definition pos_scores `{Scalar F} (m : EmbeddingModel F) (e : example)
  : list F :=
  (λ o, dot (row_of (out_embed m) o) (row_of (in_embed m) (center_word e)))
    <$> pos_words e.

Definition neg_scores `{Scalar F} (m : EmbeddingModel F) (e : example)
  : list F :=
  (λ o, dot (row_of (out_embed m) o)
            (fneg <$> row_of (in_embed m) (center_word e)))
    <$> neg_words e.

(** Well-formed tables and examples whose indices the tables hold. *)
Definition in_range {F} (e : Embedding F) (i : Z) : Prop :=
  (0 ≤ i < Z.of_nat (length (weight e)))%Z.

Definition wf_model {F} (m : EmbeddingModel F) : Prop :=
  embedding_dim (out_embed m) = embedding_dim (in_embed m)
  ∧ Forall (λ r, length r = embedding_dim (in_embed m)) (weight (in_embed m))
  ∧ Forall (λ r, length r = embedding_dim (out_embed m))
      (weight (out_embed m)).

Definition example_in_range {F} (m : EmbeddingModel F) (P N : nat)
    (e : example) : Prop :=
  in_range (in_embed m) (center_word e)
  ∧ length (pos_words e) = P ∧ Forall (in_range (out_embed m)) (pos_words e)
  ∧ length (neg_words e) = N ∧ Forall (in_range (out_embed m)) (neg_words e).

(** What the helpers are meant to return, for a vocabulary [d], the
    words [l] and the embedding matrix [w]. *)
Definition row_at {F} (w : list (list F)) (i : Z) : list F :=
  default [] (w !! Z.to_nat i).

Definition kept_pairs {F} (d : gmap string Z) (rows : list (row F))
  : list (row F) :=
  filter (λ r, is_Some (d !! r.1.1) ∧ is_Some (d !! r.1.2)) rows.

Definition model_sim `{Stats F} (d : gmap string Z) (w : list (list F))
    (r : row F) : F :=
  cosine_similarity (row_at w (default 0%Z (d !! r.1.1)))
                    (row_at w (default 0%Z (d !! r.1.2))).

Definition evaluate_spec `{Stats F} (d : gmap string Z) (w : list (list F))
    (rows : list (row F)) : corr :=
  spearmanr (snd <$> kept_pairs d rows) (model_sim d w <$> kept_pairs d rows).

Definition find_nearest_spec `{Stats F} (l : list string)
    (w : list (list F)) (i : Z) : list string :=
  (λ j, default EmptyString (l !! Z.to_nat j))
    <$> take 10 (argsort ((λ e, cosine e (row_at w i)) <$> w)).

(** The corpus of the end-to-end scenario, as a dataset. *)
Definition abc_dataset : WordEmbeddingDataset sym :=
  notebook_dataset notebook "a b c a b c a b c".

(** A corpus of 129 tokens, one more than a batch holds, and a model
    for its vocabulary. *)
Fixpoint repeat_text (n : nat) (w : string) : string :=
  match n with
  | O => EmptyString
  | S n' => w +:+ " " +:+ repeat_text n' w
  end.

Definition corpus129 : string := repeat_text 129 "a".

Definition dataset129 : WordEmbeddingDataset sym :=
  notebook_dataset notebook corpus129.

Definition model129 : EmbeddingModel sym :=
  {| in_embed :=
       Embedding_init
         (vocab_size (text_preprocess (F:=sym) notebook corpus129))
         (EMBEDDING_SIZE notebook) (λ i j, SConst (Z.of_nat (i + j)));
     out_embed :=
       Embedding_init
         (vocab_size (text_preprocess (F:=sym) notebook corpus129))
         (EMBEDDING_SIZE notebook) (λ i j, SConst (Z.of_nat (i * j))) |}.

(** The state in which cell 20 starts on a machine with two devices,
    and the loader of the 129-token corpus cut into its two batches. *)
Definition two_gpu_state : train_state (F:=sym) :=
  TrainState (setup_model true 2 model129)
    (globals_before_loop (text_preprocess notebook corpus129)) [] [].

Definition zero_batch (b : nat) : batch :=
  Batch (Tensor [b] (replicate b 0%Z))
        (Tensor [b; 6] (replicate (b * 6) 0%Z))
        (Tensor [b; 600] (replicate (b * 600) 0%Z)).

Definition loader129 (e : nat) : list batch :=
  zero_batch <$> batch_sizes 129 (BATCH_SIZE notebook).

(** A stand-in for the wrapper's forward pass and for the optimizer. *)
Definition sym_parallel_forward (n : nat) (m : EmbeddingModel sym)
    (b : batch) : result (tensor sym) :=
  Ok (Tensor (take 1 (shape (input_labels b)))
        (SConst <$> data (input_labels b))).

Definition sym_sgd_step (m : EmbeddingModel sym) (b : batch)
  : EmbeddingModel sym := m.

Definition no_accessor : exn :=
  AttributeError "DataParallel" "input_embeddings".

Ltac decide_by_compute :=
  apply (bool_decide_unpack _); vm_compute; exact I.

(** ** IEEE 754 binary32

    float32 values are the binary floats of 24 bits of precision and
    maximal exponent 128. Conversion from an integer, addition,
    multiplication, division and negation are correctly rounded (to
    nearest, ties to even) and are taken from the standard
    specification. The functions whose rounding or order of evaluation
    numpy, torch and the C library leave open ([x ** 0.75], [np.sum],
    [Tensor.mean], [F.logsigmoid]) are the fields of a [float_lib];
    [ieee_lib] states what holds of them in every implementation. *)

Abbreviation f32 := SpecFloat.spec_float.
Abbreviation f32_nan := SpecFloat.S754_nan.
Abbreviation f32_zero := (SpecFloat.S754_zero false).

(** [np.array(counts, dtype=np.float32)] on one count. *)
Definition f32_of_Z (z : Z) : f32 :=
  SpecFloat.binary_normalize 24 128 z 0 false.

Record float_lib : Type := FloatLib {
  lib_pow34 : f32 → f32;
  lib_sum : list f32 → f32;
  lib_mean : list f32 → f32;
  lib_logsigmoid : f32 → f32;
}.

Definition f32_scalar (L : float_lib) : Scalar f32 := {|
  of_count := f32_of_Z;
  fadd := SpecFloat.SFadd 24 128;
  fmul := SpecFloat.SFmul 24 128;
  fdiv := SpecFloat.SFdiv 24 128;
  fneg := SpecFloat.SFopp;
  fpow34 := lib_pow34 L;
  fsum := lib_sum L;
  fmean := lib_mean L;
  logsigmoid := lib_logsigmoid L;
|}.

(** A sum with a NaN term is NaN and a sum of one or more [+0.] is
    [+0.], in whatever order the terms are added; a power of NaN with a
    non-zero exponent is NaN. *)
Record ieee_lib (L : float_lib) : Prop := IeeeLib {
  lib_sum_nan : ∀ l, f32_nan ∈ l → lib_sum L l = f32_nan;
  lib_sum_zeros : ∀ k, lib_sum L (replicate (S k) f32_zero) = f32_zero;
  lib_pow34_nan : lib_pow34 L f32_nan = f32_nan;
}.

(** The rational number a float stands for; none for NaN and the
    infinities. *)
Definition f32_value (x : f32) : option QArith_base.Q :=
  match x with
  | SpecFloat.S754_zero _ => Some (QArith_base.Qmake 0 1)
  | SpecFloat.S754_finite s m e =>
      let z := SpecFloat.cond_Zopp s (Zpos m) in
      Some (if (0 <=? e)%Z then QArith_base.Qmake (z * 2 ^ e) 1
            else QArith_base.Qmake z (2 ^ Z.to_pos (- e)))
  | _ => None
  end.

Definition sumQ (l : list QArith_base.Q) : QArith_base.Q :=
  foldr QArith_base.Qplus (QArith_base.Qmake 0 1) l.

(** The entries are numbers and their exact sum is within 1e-6 of 1. *)
Definition sums_to_one (ws : list f32) : Prop :=
  ∃ qs, mapM f32_value ws = Some qs
    ∧ QArith_base.Qle
        (Qabs.Qabs (QArith_base.Qminus (sumQ qs) (QArith_base.Qmake 1 1)))
        (QArith_base.Qmake 1 1000000).

(** The entry is a number above zero. *)
Definition f32_positive (w : f32) : Prop :=
  ∃ q, f32_value w = Some q ∧ QArith_base.Qlt (QArith_base.Qmake 0 1) q.

(** One library and one sampler for closed examples: sums from left to
    right, [x ** 0.75] as [sqrt (x * sqrt x)], the mean as the sum over
    the length, and [min(x, 0)] as a coarse log-sigmoid; the sampler
    takes finite non-negative weights that are not all zero. *)
Definition reference_lib : float_lib := {|
  lib_pow34 := λ x, SpecFloat.SFsqrt 24 128
                      (SpecFloat.SFmul 24 128 x (SpecFloat.SFsqrt 24 128 x));
  lib_sum := foldl (SpecFloat.SFadd 24 128) f32_zero;
  lib_mean := λ l, SpecFloat.SFdiv 24 128
                     (foldl (SpecFloat.SFadd 24 128) f32_zero l)
                     (f32_of_Z (Z.of_nat (length l)));
  lib_logsigmoid := λ x, if SpecFloat.SFltb x f32_zero then x else f32_zero;
|}.

Definition f32_is_weight (w : f32) : bool :=
  match w with
  | SpecFloat.S754_zero _ => true
  | SpecFloat.S754_finite s _ _ => negb s
  | _ => false
  end.

Definition reference_sampler : Sampler f32 := {|
  rng := nat;
  valid_weights := λ ws,
    forallb f32_is_weight ws
    && existsb (λ w, SpecFloat.SFltb f32_zero w) ws;
  draw1 := λ ws s, (Z.of_nat (s mod length ws), S s);
|}.

(** ** Vocabulary used by the further properties *)

Fixpoint string_forallb (f : ascii → bool) (s : string) : bool :=
  match s with
  | EmptyString => true
  | String a s' => f a && string_forallb f s'
  end.

Definition is_upper (a : ascii) : bool :=
  let n := nat_of_ascii a in (65 <=? n) && (n <=? 90).

Definition is_ascii (a : ascii) : bool := nat_of_ascii a <? 128.

(** A character a token of the lower-cased ASCII text can hold. *)
Definition token_char (a : ascii) : bool :=
  is_ascii a && negb (is_space a) && negb (is_upper a).

(** How often [w] occurs in the token list. *)
Definition occurrences (w : string) (text : list string) : Z :=
  Z.of_nat (length (filter (λ t, t = w) text)).

(** The words [text_preprocess] keeps under their own name. *)
Definition kept_words (h : hyper) (text : list string) : list string :=
  keys (most_common (MAX_VOCAB_SIZE h - 1) (Counter text)).

(** The tokens of the end-to-end scenario. *)
Definition abc_tokens : list string :=
  word_tockenize (lower "a b c a b c a b c").

Definition abc_preprocessed : preprocessed sym :=
  text_preprocess notebook "a b c a b c a b c".

(** A corpus of two tokens, shorter than the window radius. *)
Definition ab_dataset : WordEmbeddingDataset sym :=
  notebook_dataset notebook "a b".

(** A model of three words in two dimensions and two examples for it. *)
Definition tiny_model : EmbeddingModel sym :=
  {| in_embed := Embedding_init 3 2 (λ i j, SConst (Z.of_nat (i + j)));
     out_embed := Embedding_init 3 2 (λ i j, SConst (Z.of_nat (i * j))) |}.

Definition tiny_examples : list example :=
  [Example_ 0 [1; 2]%Z [0; 0; 1]%Z; Example_ 1 [0; 2]%Z [2; 2; 1]%Z].

(** The notebook environment with the three names of the helpers bound
    to the tables of [pets], and a benchmark directory that holds the
    first file the loop reads. *)
Definition pets_env : gmap string (value sym) :=
  <["word_to_idx" := VDict (word2idx pets)]>
    (<["idx_to_word" := VWords (idx2word pets)]>
       (<["embedding_weights" := VArray pets_weights]>
          (globals_before_loop pets))).

Definition simlex_fs (filename sep : string) : result (list (row sym)) :=
  if String.eqb filename "simlex-999.txt" then
    Ok [("old", "new", SConst 1)]
  else Raise (FileNotFoundError filename).

Definition tiny_state : train_state (F:=sym) :=
  TrainState (setup_model false 0 tiny_model) (globals_before_loop pets)
    [] [].

(** The examples of the first two positions of the scenario corpus, and
    the model the notebook builds for its vocabulary. *)
Definition abc_example (idx : Z) : example :=
  match getitem notebook abc_dataset idx (0 : rng) with
  | Ok (ex, _) => ex
  | Raise _ => Example_ 0 [] []
  end.

Definition abc_examples : list example := [abc_example 0; abc_example 1].

(** * Properties *)

(** ** Tokens and counts on small corpora *)

Example tokens_example :
  word_tockenize (lower ("The  cat" +:+ tab +:+ "sat ON the Mat "))
  = ["the"; "cat"; "sat"; "on"; "the"; "mat"].
Proof. reflexivity. Qed.

Example vocab_example :
  vocab_of notebook ["b"; "a"; "b"; "c"; "a"; "b"]
  = [("b", 3%Z); ("a", 2%Z); ("c", 1%Z); ("<unk>", 0%Z)].
Proof. reflexivity. Qed.

(** Beyond the cap the rarest words fall into the bucket; equal counts
    keep their encounter order. *)
Example vocab_cap_example :
  vocab_of (Hyper 2 1 2 3 128 100) ["x"; "b"; "a"; "b"; "c"; "a"]
  = [("b", 2%Z); ("a", 2%Z); ("<unk>", 2%Z)].
Proof. reflexivity. Qed.

(** ** Insertion-ordered dicts *)

Lemma sumZ_app (l k : list Z) : sumZ (l ++ k) = (sumZ l + sumZ k)%Z.
Proof. induction l as [|x l IH]; simpl; lia. Qed.

Lemma dict_set_fresh k v (d : odict) :
  k ∉ keys d → dict_set k v d = d ++ [(k, v)].
Proof.
  induction d as [|[k' v'] d IH]; simpl; [done|].
  intros Hk. apply not_elem_of_cons in Hk as [Hne Hk].
  destruct (String.eqb_spec k' k) as [->|_]; [done|].
  by rewrite IH.
Qed.

Lemma keys_dict_set k v (d : odict) :
  keys (dict_set k v d) = if decide (k ∈ keys d) then keys d else keys d ++ [k].
Proof.
  induction d as [|[k' v'] d IH]; simpl; [done|].
  destruct (String.eqb_spec k' k) as [->|Hne]; simpl.
  - rewrite decide_True; [done | left].
  - rewrite IH. destruct (decide (k ∈ keys d)) as [Hin|Hin].
    + rewrite decide_True; [done | by right].
    + rewrite decide_False; [done|].
      intros [?|?]%elem_of_cons; congruence.
Qed.

Lemma keys_counter_add w (c : odict) :
  keys (counter_add w c) = if decide (w ∈ keys c) then keys c else keys c ++ [w].
Proof.
  induction c as [|[k v] c IH]; simpl; [done|].
  destruct (String.eqb_spec k w) as [->|Hne]; simpl.
  - rewrite decide_True; [done | left].
  - rewrite IH. destruct (decide (w ∈ keys c)) as [Hin|Hin].
    + rewrite decide_True; [done | by right].
    + rewrite decide_False; [done|].
      intros [?|?]%elem_of_cons; congruence.
Qed.

Lemma NoDup_snoc_fresh (w : string) (l : list string) :
  NoDup l → w ∉ l → NoDup (l ++ [w]).
Proof.
  intros Hl Hw. apply NoDup_app. split_and!; [done| |apply NoDup_singleton].
  intros x Hx ->%list_elem_of_singleton. done.
Qed.

Lemma NoDup_keys_counter_add w (c : odict) :
  NoDup (keys c) → NoDup (keys (counter_add w c)).
Proof.
  intros Hc. rewrite keys_counter_add.
  case_decide; [done | by apply NoDup_snoc_fresh].
Qed.

Lemma NoDup_keys_dict_set k v (d : odict) :
  NoDup (keys d) → NoDup (keys (dict_set k v d)).
Proof.
  intros Hd. rewrite keys_dict_set.
  case_decide; [done | by apply NoDup_snoc_fresh].
Qed.

Lemma NoDup_keys_Counter text : NoDup (keys (Counter text)).
Proof.
  unfold Counter.
  assert (Hgen : ∀ acc : odict, NoDup (keys acc) →
            NoDup (keys (fold_left (λ c w, counter_add w c) text acc))).
  { induction text as [|w text IH]; simpl; [done|].
    intros acc Hacc. apply IH. by apply NoDup_keys_counter_add. }
  apply Hgen. constructor.
Qed.

Lemma insert_desc_perm x (s : odict) : insert_desc x s ≡ₚ x :: s.
Proof.
  induction s as [|y s IH]; simpl; [done|].
  destruct (x.2 <? y.2)%Z; [|done].
  rewrite IH. apply Permutation_swap.
Qed.

Lemma sort_desc_perm (c : odict) : sort_desc c ≡ₚ c.
Proof.
  induction c as [|x c IH]; simpl; [done|].
  by rewrite insert_desc_perm, IH.
Qed.

Lemma NoDup_keys_most_common n (c : odict) :
  NoDup (keys c) → NoDup (keys (most_common n c)).
Proof.
  intros Hc. unfold most_common, keys. rewrite fmap_take.
  eapply sublist_NoDup; [|apply sublist_take].
  by rewrite (fmap_Permutation fst _ _ (sort_desc_perm c)).
Qed.

Lemma NoDup_keys_vocab_of h text : NoDup (keys (vocab_of h text)).
Proof.
  unfold vocab_of. apply NoDup_keys_dict_set, NoDup_keys_most_common,
    NoDup_keys_Counter.
Qed.

(** ** [enumerate] into a dict *)

Lemma enumerate_fold_notin (ws : list string) w :
  w ∉ ws → ∀ off (m : gmap string nat),
  fold_left (λ m iw, <[iw.2 := iw.1]> m) (zip (seq off (length ws)) ws) m !! w
  = m !! w.
Proof.
  induction ws as [|x ws IH]; simpl; [done|].
  intros [Hne Hw]%not_elem_of_cons off m.
  rewrite IH by done. by rewrite lookup_insert_ne.
Qed.

Lemma enumerate_fold_lookup (ws : list string) :
  NoDup ws → ∀ j w off (m : gmap string nat), ws !! j = Some w →
  fold_left (λ m iw, <[iw.2 := iw.1]> m) (zip (seq off (length ws)) ws) m !! w
  = Some (off + j).
Proof.
  induction 1 as [|x ws Hx Hnd IH]; intros j w off m Hj; [done|].
  simpl. destruct j as [|j]; simpl in Hj.
  - injection Hj as ->. rewrite enumerate_fold_notin by done.
    rewrite lookup_insert_eq. f_equal. lia.
  - rewrite (IH j w (S off)) by done. f_equal. lia.
Qed.

Lemma enumerate_dict_lookup (ws : list string) w i :
  NoDup ws → enumerate_dict ws !! w = Some i ↔ ws !! i = Some w.
Proof.
  intros Hnd. unfold enumerate_dict. split.
  - intros Hi. destruct (decide (w ∈ ws)) as [Hin|Hin].
    + apply list_elem_of_lookup in Hin as [j Hj].
      rewrite (enumerate_fold_lookup ws Hnd j w 0 ∅ Hj) in Hi.
      simpl in Hi. by injection Hi as <-.
    + by rewrite enumerate_fold_notin in Hi.
  - intros Hi. by rewrite (enumerate_fold_lookup ws Hnd i w 0 ∅ Hi).
Qed.

Lemma enumerate_dict_None (ws : list string) w :
  enumerate_dict ws !! w = None ↔ w ∉ ws.
Proof.
  unfold enumerate_dict. split.
  - intros Hnone Hin. revert Hnone.
    assert (Hgen : ∀ off (m : gmap string nat), is_Some
      (fold_left (λ m iw, <[iw.2 := iw.1]> m) (zip (seq off (length ws)) ws) m
         !! w)).
    { induction ws as [|x ws IH]; [by apply elem_of_nil in Hin|].
      intros off m. simpl. destruct (decide (w ∈ ws)) as [Hw|Hw].
      - by apply IH.
      - apply elem_of_cons in Hin as [->|?]; [|done].
        rewrite enumerate_fold_notin by done.
        rewrite lookup_insert_eq. by eexists. }
    intros Hnone. destruct (Hgen 0 ∅) as [? Heq]. congruence.
  - intros Hw. by rewrite enumerate_fold_notin.
Qed.

(** ** Vocabulary counts *)

Lemma sumZ_dict_set_fresh k v (d : odict) :
  k ∉ keys d → sumZ (values (dict_set k v d)) = (sumZ (values d) + v)%Z.
Proof.
  intros Hk. rewrite dict_set_fresh by done.
  unfold values. rewrite fmap_app, sumZ_app. simpl. lia.
Qed.

Lemma sumZ_dict_set_present k v c (d : odict) :
  NoDup (keys d) → (k, c) ∈ d →
  sumZ (values (dict_set k v d)) = (sumZ (values d) - c + v)%Z.
Proof.
  induction d as [|[k' v'] d IH]; simpl; intros Hnd Hin.
  - by apply elem_of_nil in Hin.
  - apply NoDup_cons in Hnd as [Hk' Hnd].
    destruct (String.eqb_spec k' k) as [->|Hne]; simpl.
    + apply elem_of_cons in Hin as [Heq|Hin].
      * injection Heq as ->. lia.
      * exfalso. apply Hk'. apply (list_elem_of_fmap_2 fst) in Hin. done.
    + apply elem_of_cons in Hin as [Heq|Hin]; [congruence|].
      rewrite IH by done. lia.
Qed.

Lemma counter_add_positive w (c : odict) :
  (∀ kv, kv ∈ c → (1 ≤ kv.2)%Z) → ∀ kv, kv ∈ counter_add w c → (1 ≤ kv.2)%Z.
Proof.
  induction c as [|[k v] c IH]; simpl; intros Hc kv Hkv.
  - apply list_elem_of_singleton in Hkv as ->. simpl. lia.
  - destruct (String.eqb_spec k w) as [->|Hne].
    + apply elem_of_cons in Hkv as [->|Hkv]; simpl.
      * specialize (Hc (w, v)). simpl in Hc.
        assert (1 ≤ v)%Z by (apply Hc; left). lia.
      * apply Hc. by right.
    + apply elem_of_cons in Hkv as [->|Hkv].
      * apply Hc. left.
      * apply IH; [|done]. intros kv' Hkv'. apply Hc. by right.
Qed.

Lemma Counter_positive text kv : kv ∈ Counter text → (1 ≤ kv.2)%Z.
Proof.
  unfold Counter.
  assert (Hgen : ∀ acc : odict, (∀ kv, kv ∈ acc → (1 ≤ kv.2)%Z) →
            ∀ kv, kv ∈ fold_left (λ c w, counter_add w c) text acc →
                  (1 ≤ kv.2)%Z).
  { induction text as [|w text IH]; simpl; [done|].
    intros acc Hacc. apply IH. by apply counter_add_positive. }
  apply Hgen. intros ? []%elem_of_nil.
Qed.

Lemma most_common_subseteq n (c : odict) kv :
  kv ∈ most_common n c → kv ∈ c.
Proof.
  unfold most_common. intros (i & Hi & _)%elem_of_take.
  rewrite <- (sort_desc_perm c). by eapply list_elem_of_lookup_2.
Qed.

(** Without a token spelled like the bucket among the kept words, the
    counts of [vocab] add up to the corpus length. *)
Lemma vocab_counts_sum_fresh h text :
  UNK ∉ keys (most_common (MAX_VOCAB_SIZE h - 1) (Counter text)) →
  sumZ (values (vocab_of h text)) = Z.of_nat (length text).
Proof.
  intros Hk. unfold vocab_of. rewrite sumZ_dict_set_fresh by done. lia.
Qed.

(** With such a token, its own count [c] is overwritten and lost. *)
Lemma vocab_counts_sum_collision h text c :
  (UNK, c) ∈ most_common (MAX_VOCAB_SIZE h - 1) (Counter text) →
  sumZ (values (vocab_of h text)) = (Z.of_nat (length text) - c)%Z
  ∧ (1 ≤ c)%Z.
Proof.
  intros Hin. split.
  - unfold vocab_of.
    rewrite (sumZ_dict_set_present _ _ c); [lia| |done].
    apply NoDup_keys_most_common, NoDup_keys_Counter.
  - apply most_common_subseteq, Counter_positive in Hin. done.
Qed.

(** C4, at the corpus ["<unk> a"]: [text_preprocess] keeps both tokens,
    then overwrites the count of the token ["<unk>"] with the residual 0;
    the vocabulary counts add up to 1 although the corpus has 2 tokens. *)
Theorem text_preprocess_unk_token_counts :
  let p := text_preprocess (F:=sym) notebook "<unk> a" in
  text p = ["<unk>"; "a"]
  ∧ vocab_of notebook (text p) = [("<unk>", 0%Z); ("a", 1%Z)]
  ∧ word_counts p = [SConst 0; SConst 1]
  ∧ sumZ (values (vocab_of notebook (text p))) = 1%Z
  ∧ Z.of_nat (length (text p)) = 2%Z.
Proof. vm_compute. done. Qed.

(** ** Vocabulary indices *)

Section VocabularyIndices.
Context {F : Type} `{Scalar F}.
Variables (h : hyper) (file : string).

Local Abbreviation p := (text_preprocess (F:=F) h file).

Lemma vocab_size_length : vocab_size p = length (idx2word p).
Proof. done. Qed.

(** [word2idx] and [idx2word] are inverse bijections between the
    vocabulary and [0, vocab_size). *)
Lemma word2idx_contiguous w (i : Z) :
  word2idx p !! w = Some i ↔
  (0 ≤ i < Z.of_nat (vocab_size p))%Z ∧ idx2word p !! Z.to_nat i = Some w.
Proof.
  unfold text_preprocess; simpl.
  pose proof (NoDup_keys_vocab_of h (word_tockenize (lower file))) as Hnd.
  rewrite lookup_fmap. split.
  - destruct (enumerate_dict _ !! w) as [j|] eqn:Hj; [|done].
    simpl. intros [= <-]. apply enumerate_dict_lookup in Hj; [|done].
    rewrite Nat2Z.id. split; [|done].
    apply lookup_lt_Some in Hj. lia.
  - intros [Hi Hw]. apply enumerate_dict_lookup in Hw; [|done].
    rewrite Hw. simpl. f_equal. lia.
Qed.

Lemma word2idx_None w : word2idx p !! w = None ↔ w ∉ idx2word p.
Proof.
  unfold text_preprocess; simpl.
  rewrite lookup_fmap, fmap_None. apply enumerate_dict_None.
Qed.

(** When no kept word is spelled ["<unk>"], the bucket is appended and
    takes the last index. *)
Lemma unk_last_index :
  UNK ∉ keys (most_common (MAX_VOCAB_SIZE h - 1) (Counter (text p))) →
  idx2word p !! (vocab_size p - 1) = Some UNK
  ∧ word2idx p !! UNK = Some (Z.of_nat (vocab_size p) - 1)%Z.
Proof.
  intros Hfresh.
  assert (Hlast : idx2word p !! (vocab_size p - 1) = Some UNK).
  { unfold text_preprocess in *; simpl in *.
    unfold vocab_of. rewrite dict_set_fresh by done.
    unfold keys. rewrite fmap_app, length_app. simpl.
    rewrite lookup_app_r by lia.
    replace (_ - _) with 0 by lia. done. }
  split; [done|].
  apply word2idx_contiguous.
  pose proof (lookup_lt_Some _ _ _ Hlast) as Hlt.
  rewrite <- vocab_size_length in Hlt.
  replace (Z.to_nat (Z.of_nat (vocab_size p) - 1)) with (vocab_size p - 1)
    by lia.
  split; [lia | done].
Qed.

Lemma vocab_size_bounds :
  1 ≤ vocab_size p ≤ Nat.max 1 (MAX_VOCAB_SIZE h).
Proof.
  unfold text_preprocess; simpl. unfold vocab_of.
  set (top := most_common _ _). set (v := (_ - _)%Z).
  assert (Htop : length top ≤ MAX_VOCAB_SIZE h - 1).
  { subst top. unfold most_common. rewrite length_take. lia. }
  assert (Hset : ∀ d : odict,
            1 ≤ length (dict_set UNK v d) ≤ S (length d)).
  { induction d as [|[k' v'] d IH]; simpl; [lia|].
    destruct (String.eqb k' UNK); simpl; lia. }
  unfold keys. rewrite length_fmap. specialize (Hset top). lia.
Qed.

(** Tokens outside the vocabulary are encoded as [vocab_size - 1]. *)
Lemma absent_token_encoded_last j t :
  (Z.of_nat (MAX_VOCAB_SIZE h) ≤ 2 ^ 24)%Z →
  text p !! j = Some t → word2idx p !! t = None →
  text_encoded (notebook_dataset (F:=F) h file) !! j
  = Some (Z.of_nat (vocab_size p) - 1)%Z.
Proof.
  intros Hcap Ht Hnone. unfold notebook_dataset, dataset_init.
  cbn [text_encoded].
  rewrite !list_lookup_fmap, Ht. cbn [fmap option_fmap option_map].
  rewrite Hnone. cbn [default]. f_equal. unfold f32_of_int.
  pose proof vocab_size_bounds as Hb.
  rewrite (proj2 (Z.leb_le _ _)); [done|]. lia.
Qed.

End VocabularyIndices.

(** C6, at the corpus ["<unk> a"]: the token ["<unk>"] is the most common
    word, so the bucket keeps index 0 and the last index, 1, belongs to
    ["a"]; the fallback index of [WordEmbeddingDataset] is then the index
    of ["a"]. *)
Theorem text_preprocess_unk_token_index :
  let p := text_preprocess (F:=sym) notebook "<unk> a" in
  idx2word p = ["<unk>"; "a"]
  ∧ vocab_size p = 2
  ∧ word2idx p !! "<unk>" = Some 0%Z
  ∧ idx2word p !! (vocab_size p - 1) = Some "a"
  ∧ default (Z.of_nat (vocab_size p) - 1)%Z (word2idx p !! "zebra")
    = default 0%Z (word2idx p !! "a").
Proof. vm_compute. done. Qed.

(** ** The example generator *)

Lemma mapM_Ok_fmap {A B} (f : A → result B) (g : A → B) (l : list A) :
  (∀ x, x ∈ l → f x = Ok (g x)) → mapM f l = Ok (g <$> l).
Proof.
  induction l as [|x l IH]; intros Hf; [done|].
  cbn [mapM]. rewrite (Hf x) by left. cbn.
  rewrite IH; [done|]. intros y Hy. apply Hf. by right.
Qed.

Lemma length_range a b : length (range a b) = Z.to_nat (b - a).
Proof. unfold range. by rewrite length_fmap, length_seq. Qed.

Lemma lookup_range a b (j : nat) :
  (Z.of_nat j < b - a)%Z → range a b !! j = Some (a + Z.of_nat j)%Z.
Proof.
  intros Hj. unfold range. rewrite list_lookup_fmap.
  rewrite (lookup_seq_lt 0) by lia. done.
Qed.

Lemma py_index_Ok {A} (l : list A) (i : Z) x :
  (0 ≤ i)%Z → l !! Z.to_nat i = Some x → py_index l i = Ok x.
Proof.
  intros Hi Hx. unfold py_index.
  destruct (Z.ltb_spec i 0) as [?|_]; [lia|].
  destruct (Z.ltb_spec i 0) as [?|_]; [lia|].
  by rewrite Hx.
Qed.

Lemma pos_indices_Ok h (len : nat) (idx : Z) :
  0 < len →
  pos_indices h len idx
  = Ok ((λ i, i mod Z.of_nat len)%Z <$>
          (range (idx - Z.of_nat (C h)) idx
           ++ range (idx + 1) (idx + Z.of_nat (C h) + 1))).
Proof.
  intros Hlen. unfold pos_indices. apply mapM_Ok_fmap.
  intros i _. unfold py_mod.
  destruct (Z.eqb_spec (Z.of_nat len) 0) as [?|_]; [lia | done].
Qed.

Lemma length_draws `{Sampler F} (ws : list F) n s :
  length (draws ws n s).1 = n.
Proof.
  revert s. induction n as [|n IH]; intros s; simpl; [done|].
  destruct (draw1 ws s) as [i s1]. specialize (IH s1).
  destruct (draws ws n s1) as [l s2]. simpl in *. by rewrite IH.
Qed.


Section Getitem.
Context {F : Type} `{Sampler F}.
Variables (h : hyper) (ds : WordEmbeddingDataset F).

(** What [__getitem__] computes at a corpus position. *)
Lemma getitem_Ok (idx : Z) (s : rng) :
  (0 ≤ idx < Z.of_nat (dataset_len ds))%Z →
  valid_weights (ds_word_freqs ds) = true →
  0 < K h → 0 < C h →
  ∃ ex, getitem h ds idx s
        = Ok (ex, (draws (ds_word_freqs ds) (K h * (2 * C h)) s).2)
    ∧ text_encoded ds !! Z.to_nat idx = Some (center_word ex)
    ∧ Some <$> pos_words ex
      = (λ i, text_encoded ds !! Z.to_nat (i mod Z.of_nat (dataset_len ds)))
          <$> (range (idx - Z.of_nat (C h)) idx
               ++ range (idx + 1) (idx + Z.of_nat (C h) + 1))
    ∧ neg_words ex = (draws (ds_word_freqs ds) (K h * (2 * C h)) s).1.
Proof.
  intros Hidx Hvalid HK HC. unfold dataset_len in *.
  set (l := text_encoded ds) in *. set (n := Z.of_nat (length l)) in *.
  destruct (lookup_lt_is_Some_2 l (Z.to_nat idx)) as [c Hc]; [lia|].
  set (raw := range (idx - Z.of_nat (C h)) idx
              ++ range (idx + 1) (idx + Z.of_nat (C h) + 1)).
  set (g := λ q : Z, default 0%Z (l !! Z.to_nat q)).
  assert (Hg : ∀ i, l !! Z.to_nat (i mod n) = Some (g (i mod n)%Z)).
  { intros i. subst g. cbn beta.
    destruct (lookup_lt_is_Some_2 l (Z.to_nat (i mod n))) as [x Hx].
    - pose proof (Z.mod_pos_bound i n). lia.
    - by rewrite Hx. }
  assert (Hlen : length raw = 2 * C h).
  { subst raw. rewrite length_app, !length_range. lia. }
  exists (Example_ c ((λ i, g (i mod n)%Z) <$> raw)
            (draws (ds_word_freqs ds) (K h * (2 * C h)) s).1).
  split_and!; [|done| |done].
  - unfold getitem. fold l. rewrite (py_index_Ok l idx c) by (done || lia).
    cbn. rewrite pos_indices_Ok by lia. cbn. fold n raw.
    rewrite (mapM_Ok_fmap _ g).
    2:{ intros q (i & -> & _)%list_elem_of_fmap.
        apply py_index_Ok; [|apply Hg].
        pose proof (Z.mod_pos_bound i n). lia. }
    cbn. rewrite !length_fmap, Hlen.
    unfold multinomial_replacement. rewrite Hvalid. cbn [negb].
    destruct (Nat.eqb_spec (K h * (2 * C h)) 0) as [?|_]; [lia|].
    cbn [mbind result_bind]. rewrite <- list_fmap_compose.
    by destruct (draws _ _ _).
  - cbn [pos_words]. rewrite <- list_fmap_compose. apply list_fmap_ext.
    intros i. symmetry. apply Hg.
Qed.

End Getitem.




(** C3: the context words are read at the [C] positions before and the
    [C] positions after the center, each taken modulo the corpus length;
    with radius 3 and length 10 the window of position 0 starts with
    positions 7, 8, 9 and the window of position 9 ends with 0, 1, 2. *)
Theorem getitem_context_wraps {F : Type} `{Sampler F} (h : hyper)
    (ds : WordEmbeddingDataset F) (idx : Z) (s : rng) :
  (0 ≤ idx < Z.of_nat (dataset_len ds))%Z →
  valid_weights (ds_word_freqs ds) = true →
  0 < K h → 0 < C h →
  let len := Z.of_nat (dataset_len ds) in
  let c := Z.of_nat (C h) in
  (∃ ex s', getitem h ds idx s = Ok (ex, s')
     ∧ length (pos_words ex) = 2 * C h
     ∧ ∀ j, j < C h →
         pos_words ex !! j
         = text_encoded ds !! Z.to_nat ((idx - c + Z.of_nat j) mod len)
         ∧ pos_words ex !! (C h + j)
           = text_encoded ds !! Z.to_nat ((idx + 1 + Z.of_nat j) mod len))
  ∧ pos_indices notebook 10 0 = Ok [7; 8; 9; 1; 2; 3]%Z
  ∧ pos_indices notebook 10 9 = Ok [6; 7; 8; 0; 1; 2]%Z.
Proof.
  intros Hidx Hvalid HK HC len c. split; [|by vm_compute].
  destruct (getitem_Ok h ds idx s Hidx Hvalid HK HC)
    as (ex & Hget & _ & Hpos & _).
  exists ex, (draws (ds_word_freqs ds) (K h * (2 * C h)) s).2.
  split_and!; [done| |].
  - apply (f_equal length) in Hpos.
    rewrite !length_fmap, length_app, !length_range in Hpos. lia.
  - intros j Hj.
    assert (Hlook : ∀ k q,
      (range (idx - c) idx ++ range (idx + 1) (idx + c + 1)) !! k = Some q →
      pos_words ex !! k = text_encoded ds !! Z.to_nat (q mod len)).
    { intros k q Hk. apply (f_equal (.!! k)) in Hpos.
      rewrite !list_lookup_fmap in Hpos. fold c in Hpos. rewrite Hk in Hpos.
      simpl in Hpos. fold len in Hpos.
      destruct (pos_words ex !! k); simpl in Hpos; congruence. }
    split; apply Hlook.
    + rewrite lookup_app_l by (rewrite length_range; lia).
      apply lookup_range. lia.
    + rewrite lookup_app_r by (rewrite length_range; lia).
      rewrite length_range.
      replace (C h + j - Z.to_nat (idx - (idx - c))) with j by lia.
      apply lookup_range. lia.
Qed.

Lemma getitem_context_wraps_witness :
  ((0 ≤ 0 < Z.of_nat (dataset_len abc_dataset))%Z
   ∧ valid_weights (ds_word_freqs abc_dataset) = true
   ∧ 0 < K notebook ∧ 0 < C notebook)
  ∧ (∃ ex s', getitem notebook abc_dataset 0 (0 : rng) = Ok (ex, s')
       ∧ length (pos_words ex) = 2 * C notebook
       ∧ ∀ j, j < C notebook →
           pos_words ex !! j
           = text_encoded abc_dataset
               !! Z.to_nat ((0 - Z.of_nat (C notebook) + Z.of_nat j)
                            mod Z.of_nat (dataset_len abc_dataset))
           ∧ pos_words ex !! (C notebook + j)
             = text_encoded abc_dataset
                 !! Z.to_nat ((0 + 1 + Z.of_nat j)
                              mod Z.of_nat (dataset_len abc_dataset)))
    ∧ pos_indices notebook 10 0 = Ok [7; 8; 9; 1; 2; 3]%Z
    ∧ pos_indices notebook 10 9 = Ok [6; 7; 8; 0; 1; 2]%Z.
Proof.
  assert (H1 : (0 ≤ 0 < Z.of_nat (dataset_len abc_dataset))%Z)
    by (vm_compute; split; [discriminate | reflexivity]).
  assert (H2 : valid_weights (ds_word_freqs abc_dataset) = true)
    by (vm_compute; reflexivity).
  assert (H3 : 0 < K notebook) by (simpl; lia).
  assert (H4 : 0 < C notebook) by (simpl; lia).
  split; [done|].
  exact (getitem_context_wraps notebook abc_dataset 0 (0 : rng) H1 H2 H3 H4).
Defined.

(** A draw that hits the center word is kept: the first example of the
    corpus ["a b c ..."] has center 1 and a negative 1. *)
Example negatives_may_hit_center :
  ∃ ex s', getitem (Hyper 2 1 2 30000 128 100) abc_dataset 1 (0 : rng)
           = Ok (ex, s')
    ∧ center_word ex = 1%Z ∧ pos_words ex = [0; 2]%Z
    ∧ neg_words ex = [0; 1; 2; 3]%Z.
Proof. eexists _, _. vm_compute. done. Qed.

(** ** Row-major tensors *)

Lemma chunks_bind {A B} (f : A → list B) (n : nat) (l : list A) :
  (∀ x, x ∈ l → length (f x) = n) → chunks (length l) n (l ≫= f) = f <$> l.
Proof.
  induction l as [|x l IH]; intros Hf; [done|].
  cbn [length chunks]. rewrite bind_cons, fmap_cons.
  rewrite take_app_length', drop_app_length'
    by (symmetry; apply Hf; left).
  f_equal. apply IH. intros y Hy. apply Hf. by right.
Qed.

Lemma chunks_join {A} (n : nat) (ls : list (list A)) :
  Forall (λ r, length r = n) ls → chunks (length ls) n (mjoin ls) = ls.
Proof.
  intros Hls. rewrite list_join_bind, chunks_bind.
  - apply list_fmap_id.
  - intros r Hr. by eapply (proj1 (Forall_forall _ _)) in Hls.
Qed.

Lemma length_join_uniform {A} (n : nat) (ls : list (list A)) :
  Forall (λ r, length r = n) ls → length (mjoin ls) = length ls * n.
Proof.
  induction 1 as [|r ls Hr _ IH]; [done|].
  change (mjoin (r :: ls)) with (r ++ mjoin ls).
  rewrite length_app, IH, Hr. done.
Qed.

Lemma strided_one {A} (l : list A) : strided 1 0 (length l) l = l.
Proof.
  induction l as [|x l IH]; [done|].
  cbn [length strided]. rewrite drop_0. cbn. by rewrite drop_0, IH.
Qed.

Lemma bind_singleton_fmap {A B} (f : A → B) (l : list A) :
  l ≫= (λ x, [f x]) = f <$> l.
Proof. induction l as [|x l IH]; [done|]. rewrite bind_cons, IH. done. Qed.

Lemma join_fmap_bind {A B} (f : A → list B) (l : list A) :
  mjoin (f <$> l) = l ≫= f.
Proof. by rewrite list_join_bind, list_fmap_bind. Qed.

Lemma zip_with_fmap_same {A B1 B2 C0} (f : B1 → B2 → C0) (g : A → B1)
    (k : A → B2) (l : list A) :
  zip_with f (g <$> l) (k <$> l) = (λ x, f (g x) (k x)) <$> l.
Proof. induction l as [|x l IH]; [done|]. cbn. by rewrite IH. Qed.

Section TensorOps.
Context {F : Type} `{Scalar F}.

Lemma embedding_Ok (e : Embedding F) (ix : tensor Z) :
  (∀ i, i ∈ data ix → (0 ≤ i < Z.of_nat (length (weight e)))%Z) →
  embedding e ix
  = Ok (Tensor (shape ix ++ [embedding_dim e]) (data ix ≫= row_of e)).
Proof.
  intros Hix. unfold embedding.
  rewrite (mapM_Ok_fmap _ (row_of e)).
  - cbn. by rewrite join_fmap_bind.
  - intros i Hi. specialize (Hix i Hi). unfold embedding_row, row_of.
    destruct (Z.ltb_spec i 0) as [?|_]; [lia|].
    destruct (lookup_lt_is_Some_2 (weight e) (Z.to_nat i)) as [r Hr];
      [lia|]. by rewrite Hr.
Qed.

Lemma length_row_of (e : Embedding F) (i : Z) :
  Forall (λ r, length r = embedding_dim e) (weight e) →
  (0 ≤ i < Z.of_nat (length (weight e)))%Z →
  length (row_of e i) = embedding_dim e.
Proof.
  intros Hrows Hi. unfold row_of.
  destruct (lookup_lt_is_Some_2 (weight e) (Z.to_nat i)) as [r Hr]; [lia|].
  rewrite Hr. cbn.
  eapply (proj1 (Forall_forall _ _)) in Hrows; [done|].
  by eapply list_elem_of_lookup_2.
Qed.

(** A batch of [P×D] matrices times a batch of [D]-vectors held as
    [D×1] matrices. *)
Lemma bmm_vec {X} (xs : list X) (rows : X → list (list F))
    (vec : X → list F) (P D : nat) :
  (∀ x, x ∈ xs → length (rows x) = P
                 ∧ Forall (λ r, length r = D) (rows x)
                 ∧ length (vec x) = D) →
  bmm (Tensor [length xs; P; D] (xs ≫= λ x, mjoin (rows x)))
      (Tensor [length xs; D; 1] (xs ≫= vec))
  = Ok (Tensor [length xs; P; 1]
          (xs ≫= λ x, (λ r, dot r (vec x)) <$> rows x)).
Proof.
  intros Hxs. unfold bmm. cbn [shape data].
  rewrite !Nat.eqb_refl. cbn [andb]. do 2 f_equal.
  rewrite chunks_bind.
  2:{ intros x Hx. destruct (Hxs x Hx) as (HP & HD & _).
      rewrite (length_join_uniform D) by done. by rewrite HP. }
  rewrite chunks_bind.
  2:{ intros x Hx. destruct (Hxs x Hx) as (_ & _ & HD). lia. }
  rewrite zip_with_fmap_same, join_fmap_bind.
  apply Forall_bind_ext, Forall_forall. intros x Hx.
  destruct (Hxs x Hx) as (HP & HD & Hv).
  unfold matmul. rewrite <- HP, chunks_join by done.
  cbn [seq fmap list_fmap]. rewrite <- Hv, strided_one.
  apply bind_singleton_fmap.
Qed.

Lemma sum1_rows {X} (xs : list X) (f : X → list F) (P : nat) :
  (∀ x, x ∈ xs → length (f x) = P) →
  sum1 (Tensor [length xs; P] (xs ≫= f))
  = Ok (Tensor [length xs] ((λ x, fsum (f x)) <$> xs)).
Proof.
  intros Hf. unfold sum1. cbn [shape data foldr]. do 2 f_equal.
  rewrite chunks_bind by (intros x Hx; rewrite (Hf x Hx); lia).
  rewrite list_fmap_bind. cbn [seq fmap list_fmap].
  rewrite <- bind_singleton_fmap.
  apply Forall_bind_ext, Forall_forall. intros x Hx. cbn. do 2 f_equal.
  rewrite <- (Hf x Hx). apply strided_one.
Qed.

End TensorOps.

(** ** The loss *)

Lemma fmap_bind_list {A B C0} (f : B → C0) (g : A → list B) (l : list A) :
  f <$> (l ≫= g) = l ≫= (λ x, f <$> g x).
Proof.
  induction l as [|x l IH]; [done|].
  by rewrite !bind_cons, fmap_app, IH.
Qed.

Lemma bind_bind_list {A B C0} (f : A → list B) (g : B → list C0)
    (l : list A) :
  (l ≫= f) ≫= g = l ≫= (λ x, f x ≫= g).
Proof.
  induction l as [|x l IH]; [done|].
  by rewrite !bind_cons, bind_app, IH.
Qed.

Lemma tmap_Tensor {F} (f : F → F) (s : list nat) (d : list F) :
  tmap f (Tensor s d) = Tensor s (f <$> d).
Proof. done. Qed.

Section Forward.
Context {F : Type} `{Scalar F}.
Variables (m : EmbeddingModel F) (P N : nat) (exs : list example).
Hypothesis Hwf : wf_model m.
Hypothesis Hexs : Forall (example_in_range m P N) exs.
Hypothesis Hne : exs ≠ [].

Local Abbreviation B := (length exs).
Local Abbreviation c := (λ e, row_of (in_embed m) (center_word e)).

Lemma collate_uniform :
  collate exs = Batch (Tensor [B] (center_word <$> exs))
                      (Tensor [B; P] (exs ≫= pos_words))
                      (Tensor [B; N] (exs ≫= neg_words)).
Proof using Hexs Hne.
  unfold collate. destruct exs as [|e exs']; [done|].
  apply Forall_cons in Hexs as [(_ & HP & _ & HN & _) _].
  cbn [head from_option]. by rewrite HP, HN.
Qed.

(** [forward] up to the two [squeeze()] calls. *)
Lemma forward_scores :
  forward m (collate exs)
  = (log_pos ← sum1 (tmap logsigmoid
                 (squeeze (Tensor [B; P; 1] (exs ≫= pos_scores m))));
     log_neg ← sum1 (tmap logsigmoid
                 (squeeze (Tensor [B; N; 1] (exs ≫= neg_scores m))));
     loss ← tadd log_pos log_neg;
     Ok (tmap fneg loss)).
Proof using Hwf Hexs Hne.
  destruct Hwf as (Hdim & Hin & Hout).
  set (D := embedding_dim (in_embed m)) in *.
  assert (Hc : ∀ e, e ∈ exs → length (c e) = D).
  { intros e He. eapply (proj1 (Forall_forall _ _)) in He; [|exact Hexs].
    destruct He as (Hce & _). by apply length_row_of. }
  assert (Hrow : ∀ o, in_range (out_embed m) o →
                      length (row_of (out_embed m) o) = D).
  { intros o Ho. rewrite <- Hdim. by apply length_row_of. }
  rewrite collate_uniform. unfold forward.
  cbn [input_labels pos_labels neg_labels size0 shape mbind result_bind].
  rewrite (embedding_Ok (in_embed m)).
  2:{ cbn [data]. intros i (e & -> & He)%list_elem_of_fmap.
      eapply (proj1 (Forall_forall _ _)) in He; [|exact Hexs]. apply He. }
  cbn [mbind result_bind shape data app]. fold D.
  rewrite (embedding_Ok (out_embed m) (Tensor [B; P] _)).
  2:{ cbn [data]. intros i (e & Hi & He)%list_elem_of_bind.
      eapply (proj1 (Forall_forall _ _)) in He; [|exact Hexs].
      destruct He as (_ & _ & Hp & _).
      by eapply (proj1 (Forall_forall _ _)) in Hp. }
  cbn [mbind result_bind shape data app]. rewrite Hdim. fold D.
  rewrite embedding_Ok.
  2:{ cbn [data]. intros i (e & Hi & He)%list_elem_of_bind.
      eapply (proj1 (Forall_forall _ _)) in He; [|exact Hexs].
      destruct He as (_ & _ & _ & _ & Hn).
      by eapply (proj1 (Forall_forall _ _)) in Hn. }
  cbn [mbind result_bind shape data app]. rewrite Hdim. fold D.
  unfold unsqueeze. cbn [shape data length Nat.leb take drop app
                         mbind result_bind].
  rewrite list_fmap_bind, !bind_bind_list.
  assert (Hjoin : ∀ ws : example → list Z,
            exs ≫= (λ x, ws x ≫= row_of (out_embed m))
            = exs ≫= (λ e, mjoin (row_of (out_embed m) <$> ws e))).
  { intros ws. apply Forall_bind_ext, Forall_forall. intros e _.
    by rewrite join_fmap_bind. }
  rewrite !Hjoin.
  rewrite (bmm_vec exs (λ e, row_of (out_embed m) <$> pos_words e)).
  2:{ intros e He. pose proof (Hc e He) as Hce.
      eapply (proj1 (Forall_forall _ _)) in He; [|exact Hexs].
      destruct He as (_ & HP & Hp & _). rewrite length_fmap.
      split_and!; [done| |done].
      apply Forall_fmap. eapply Forall_impl; [exact Hp|].
      intros o Ho. by apply Hrow. }
  cbn [fmap result_fmap mbind result_bind].
  rewrite (tmap_Tensor fneg), fmap_bind_list.
  rewrite (bmm_vec exs (λ e, row_of (out_embed m) <$> neg_words e)
             (λ e, fneg <$> (row_of (in_embed m) ∘ center_word) e)).
  2:{ intros e He. pose proof (Hc e He) as Hce.
      eapply (proj1 (Forall_forall _ _)) in He; [|exact Hexs].
      destruct He as (_ & _ & _ & HN & Hn). rewrite !length_fmap.
      split_and!; [done| |done].
      apply Forall_fmap. eapply Forall_impl; [exact Hn|].
      intros o Ho. by apply Hrow. }
  cbn [fmap result_fmap mbind result_bind].
  assert (Hp : exs ≫= (λ e, (λ r, dot r ((row_of (in_embed m)
                               ∘ center_word) e))
                        <$> (row_of (out_embed m) <$> pos_words e))
               = exs ≫= pos_scores m).
  { apply Forall_bind_ext, Forall_forall. intros e _.
    unfold pos_scores. by rewrite <- list_fmap_compose. }
  assert (Hn : exs ≫= (λ e, (λ r, dot r (fneg <$> (row_of (in_embed m)
                               ∘ center_word) e))
                        <$> (row_of (out_embed m) <$> neg_words e))
               = exs ≫= neg_scores m).
  { apply Forall_bind_ext, Forall_forall. intros e _.
    unfold neg_scores. by rewrite <- list_fmap_compose. }
  by rewrite Hp, Hn.
Qed.

Lemma example_loss_scores (e : example) :
  example_loss m e
  = fneg (fadd (fsum (logsigmoid <$> pos_scores m e))
               (fsum (logsigmoid <$> neg_scores m e))).
Proof.
  unfold example_loss, pos_scores, neg_scores.
  by rewrite <- !list_fmap_compose.
Qed.

(** With at least two examples and windows wider than one word, the
    loss vector holds the loss of each example. *)
Lemma forward_losses :
  B ≠ 1 → P ≠ 1 → N ≠ 1 →
  forward m (collate exs) = Ok (Tensor [B] (example_loss m <$> exs)).
Proof using Hwf Hexs Hne.
  intros HB HP HN. rewrite forward_scores. unfold squeeze.
  cbn [shape data filter list_filter].
  destruct (decide (length exs ≠ 1)) as [_|[]]; [|exact HB].
  destruct (decide (P ≠ 1)) as [_|[]]; [|exact HP].
  destruct (decide (N ≠ 1)) as [_|[]]; [|exact HN].
  destruct (decide (1 ≠ 1)) as [Hc|_]; [by destruct Hc|].
  rewrite !tmap_Tensor, !fmap_bind_list.
  rewrite (sum1_rows exs (λ e, logsigmoid <$> pos_scores m e) P).
  2:{ intros e He. eapply (proj1 (Forall_forall _ _)) in He; [|exact Hexs].
      destruct He as (_ & HPe & _). unfold pos_scores.
      by rewrite !length_fmap. }
  cbn [mbind result_bind].
  rewrite (sum1_rows exs (λ e, logsigmoid <$> neg_scores m e) N).
  2:{ intros e He. eapply (proj1 (Forall_forall _ _)) in He; [|exact Hexs].
      destruct He as (_ & _ & _ & HNe & _). unfold neg_scores.
      by rewrite !length_fmap. }
  cbn [mbind result_bind]. unfold tadd. cbn [shape data].
  rewrite decide_True by done. cbn [mbind result_bind].
  rewrite tmap_Tensor, zip_with_fmap_same, <- list_fmap_compose.
  do 2 f_equal. apply list_fmap_ext. intros e.
  symmetry. apply example_loss_scores.
Qed.

End Forward.

(** A batch of one example: [squeeze()] also drops the batch dimension,
    and [sum(1)] has no dimension 1 left to reduce. *)
Lemma forward_batch_of_one `{Scalar F} (m : EmbeddingModel F) (e : example) :
  wf_model m →
  example_in_range m (length (pos_words e)) (length (neg_words e)) e →
  forward m (collate [e])
  = Raise (IndexError
      "Dimension out of range (expected to be in range of [-1, 0], but got 1)").
Proof.
  intros Hwf He.
  rewrite (forward_scores m (length (pos_words e)) (length (neg_words e))
             [e] Hwf); [|by constructor|done].
  unfold squeeze. cbn [length shape data filter list_filter].
  destruct (decide (1 ≠ 1)) as [Hc|_]; [by destruct Hc|].
  destruct (decide (length (pos_words e) ≠ 1)); done.
Qed.

(** C1, at a corpus of 129 tokens: the loader's second batch holds one
    example; its tensors have shapes [1], [1, 6] and [1, 600], and
    [forward] raises instead of returning a loss vector of length 1. *)
Theorem forward_last_batch_of_one :
  batch_sizes (dataset_len dataset129) (BATCH_SIZE notebook) = [128; 1]
  ∧ ∃ ex s', getitem notebook dataset129 128 (0 : rng) = Ok (ex, s')
      ∧ shape (input_labels (collate [ex])) = [1]
      ∧ shape (pos_labels (collate [ex])) = [1; 6]
      ∧ shape (neg_labels (collate [ex])) = [1; 600]
      ∧ forward model129 (collate [ex])
        = Raise (IndexError
            "Dimension out of range (expected to be in range of [-1, 0], but got 1)").
Proof.
  split; [by vm_compute|].
  eexists _, _. split; [vm_compute; reflexivity|].
  vm_compute. done.
Qed.

(** The formula on two examples, evaluated. *)
Example forward_two_examples :
  let e1 := Example_ 0 [1; 2]%Z [0; 0; 1]%Z in
  let e2 := Example_ 1 [0; 2]%Z [2; 2; 1]%Z in
  ∃ m, EmbeddingModel_init 3 2 (λ i j, SConst (Z.of_nat (i + j)))
         (λ i j, SConst (Z.of_nat (i * j))) = Ok m
    ∧ forward m (collate [e1; e2])
      = Ok (Tensor [2] [example_loss m e1; example_loss m e2]).
Proof. eexists. split; [reflexivity|]. vm_compute. done. Qed.

(** *** The sum in [forward] never meets two different shapes *)

Lemma mapM_Raise {A B} (f : A → result B) (l : list A) e :
  mapM f l = Raise e → ∃ x, x ∈ l ∧ f x = Raise e.
Proof.
  induction l as [|x l IH]; [done|]. cbn [mapM].
  destruct (f x) as [y|e'] eqn:Hx; cbn.
  - destruct (mapM f l) as [ys|e''] eqn:Hl; cbn; [done|].
    intros [= ->]. destruct (IH eq_refl) as (x' & Hin & Hx').
    exists x'. split; [by right | done].
  - intros [= ->]. exists x. split; [left | done].
Qed.

Section ForwardShapes.
Context {F : Type} `{Scalar F}.

Lemma embedding_shape (e : Embedding F) ix t :
  embedding e ix = Ok t → shape t = shape ix ++ [embedding_dim e].
Proof.
  unfold embedding. destruct (mapM _ _); cbn; [|done]. by intros [= <-].
Qed.

Lemma embedding_Raise (e : Embedding F) ix err :
  embedding e ix = Raise err →
  err = IndexError "index out of range in self".
Proof.
  unfold embedding. destruct (mapM _ _) as [rows|err'] eqn:Hm; cbn; [done|].
  intros [= ->]. apply mapM_Raise in Hm as (i & _ & Hi).
  unfold embedding_row in Hi. repeat case_match; congruence.
Qed.

Lemma bmm_shape (a b t : tensor F) :
  bmm a b = Ok t →
  ∃ ba n k p, shape a = [ba; n; k] ∧ shape b = [ba; k; p]
              ∧ shape t = [ba; n; p].
Proof.
  unfold bmm. repeat case_match; try done. intros [= <-].
  match goal with Hb : (_ && _) = true |- _ =>
    apply andb_prop in Hb as [->%Nat.eqb_eq ->%Nat.eqb_eq] end.
  subst. by eexists _, _, _, _.
Qed.

Lemma bmm_Raise (a b : tensor F) err :
  bmm a b = Raise err →
  err ≠ RuntimeError "tensors of different shapes".
Proof. unfold bmm. repeat case_match; intros [= <-]; done. Qed.

Lemma sum1_shape (t r : tensor F) :
  sum1 t = Ok r →
  ∃ d0 d1 rest, shape t = d0 :: d1 :: rest ∧ shape r = d0 :: rest.
Proof.
  unfold sum1. repeat case_match; try done. intros [= <-].
  by eexists _, _, _.
Qed.

Lemma sum1_Raise (t : tensor F) err :
  sum1 t = Raise err →
  err ≠ RuntimeError "tensors of different shapes".
Proof. unfold sum1. repeat case_match; intros [= <-]; done. Qed.

(** After [squeeze()] and [sum(1)] a score tensor of shape [B, n, 1]
    has shape [B]. *)
Lemma squeeze_sum1_shape (t r : tensor F) (ba n : nat) :
  shape t = [ba; n; 1] → sum1 (tmap logsigmoid (squeeze t)) = Ok r →
  shape r = [ba].
Proof.
  intros Ht Hr. apply sum1_shape in Hr as (d0 & d1 & rest & Hs & ->).
  unfold squeeze in Hs. cbn [tmap shape] in Hs. rewrite Ht in Hs.
  cbn [filter list_filter] in Hs.
  repeat case_decide; simplify_eq; done.
Qed.

Lemma forward_add_same_shape (m : EmbeddingModel F) (b : batch) :
  forward m b ≠ Raise (RuntimeError "tensors of different shapes").
Proof.
  unfold forward.
  destruct (size0 (input_labels b)) as [bs|e0] eqn:H0; cbn;
    [|unfold size0 in H0; case_match; by simplify_eq].
  destruct (embedding (in_embed m) _) as [ie|e1] eqn:Hie; cbn;
    [|by rewrite (embedding_Raise _ _ _ Hie)].
  destruct (embedding (out_embed m) (pos_labels b)) as [pe|e2] eqn:Hpe; cbn;
    [|by rewrite (embedding_Raise _ _ _ Hpe)].
  destruct (embedding (out_embed m) (neg_labels b)) as [ne|e3] eqn:Hne; cbn;
    [|by rewrite (embedding_Raise _ _ _ Hne)].
  unfold unsqueeze. destruct (2 <=? length (shape ie)) eqn:Hrank; cbn;
    [|done].
  set (u := Tensor _ (data ie)).
  destruct (bmm pe u) as [lp|e4] eqn:Hlp; cbn;
    [|intros [= ->]; by eapply bmm_Raise].
  destruct (bmm ne (tmap fneg u)) as [ln|e5] eqn:Hln; cbn;
    [|intros [= ->]; by eapply bmm_Raise].
  destruct (sum1 (tmap logsigmoid (squeeze lp))) as [sp|e6] eqn:Hsp; cbn;
    [|intros [= ->]; by eapply sum1_Raise].
  destruct (sum1 (tmap logsigmoid (squeeze ln))) as [sn|e7] eqn:Hsn; cbn;
    [|intros [= ->]; by eapply sum1_Raise].
  apply bmm_shape in Hlp as (ba & n & k & p & _ & Hu & Hlp).
  apply bmm_shape in Hln as (ba' & n' & k' & p' & _ & Hu' & Hln).
  cbn [tmap shape] in Hu'. rewrite Hu in Hu'. injection Hu' as <- <- <-.
  assert (p = 1) as ->.
  { subst u. cbn [shape] in Hu.
    destruct (shape ie) as [|d0 [|d1 [|d2 s]]]; cbn in Hu; simplify_eq.
    done. }
  unfold tadd.
  rewrite (squeeze_sum1_shape lp sp ba n Hlp Hsp),
          (squeeze_sum1_shape ln sn ba n' Hln Hsn).
  by rewrite decide_True.
Qed.

End ForwardShapes.

(** ** The evaluation helpers *)

Section HelperNames.
Context {F : Type} `{Stats F}.
Variable read_csv : string → string → result (list (row F)).

Lemma find_nearest_NameError (g : gmap string (value F)) word :
  g !! "word_to_idx" = None →
  find_nearest g word = Raise (NameError "word_to_idx").
Proof. intros Hg. unfold find_nearest, load_global. by rewrite Hg. Qed.

Lemma evaluate_NameError (g : gmap string (value F)) filename w r rows :
  g !! "word_to_idx" = None →
  read_benchmark read_csv filename = Ok (r :: rows) →
  evaluate read_csv g filename w = Raise (NameError "word_to_idx").
Proof.
  intros Hg Hread. unfold evaluate. rewrite Hread.
  cbn [mbind result_bind evaluate_rows].
  unfold evaluate_row, load_global. destruct r as [[word1 word2] score].
  by rewrite Hg.
Qed.

(** No row, no lookup: the undefined name is never read. *)
Lemma evaluate_no_rows (g : gmap string (value F)) filename w :
  read_benchmark read_csv filename = Ok [] →
  evaluate read_csv g filename w = Ok (spearmanr [] []).
Proof. intros Hread. unfold evaluate. by rewrite Hread. Qed.

Lemma evaluate_read_error (g : gmap string (value F)) filename w err :
  read_benchmark read_csv filename = Raise err →
  evaluate read_csv g filename w = Raise err.
Proof. intros Hread. unfold evaluate. by rewrite Hread. Qed.

(** With [word_to_idx] and [embedding_weights] bound, the query is at
    distance rank 0 at least, so the result list is not empty and its
    first word is looked up in [idx_to_word]. *)
Lemma find_nearest_reads_idx_to_word (g : gmap string (value F)) d w word i :
  g !! "idx_to_word" = None →
  d !! word = Some i → (0 ≤ i < Z.of_nat (length w))%Z →
  argsort ((λ e, cosine e (row_at w i)) <$> w) ≠ [] →
  find_nearest
    (<["word_to_idx" := VDict d]> (<["embedding_weights" := VArray w]> g))
    word
  = Raise (NameError "idx_to_word").
Proof.
  intros Hl Hi Hrange Hsort. unfold find_nearest, load_global.
  rewrite lookup_insert_eq. cbn [mbind result_bind as_dict].
  unfold dict_get. rewrite Hi. cbn [mbind result_bind].
  rewrite !lookup_insert_ne by done. rewrite !lookup_insert_eq.
  cbn [mbind result_bind as_array].
  destruct (lookup_lt_is_Some_2 w (Z.to_nat i)) as [r Hr]; [lia|].
  rewrite (py_index_Ok w i r) by (lia || done). cbn [mbind result_bind].
  unfold row_at in Hsort. rewrite Hr in Hsort. cbn [default] in Hsort.
  destruct (argsort _) as [|j js]; [done|].
  cbn [take mapM]. by rewrite Hl.
Qed.

Lemma notebook_env_undefined (g : gmap string (value F)) name :
  dom g ⊆ list_to_set notebook_names → name ∉ notebook_names →
  g !! name = None.
Proof.
  intros Hdom Hname. apply not_elem_of_dom. intros Hin.
  apply Hname. apply Hdom in Hin. by apply elem_of_list_to_set in Hin.
Qed.

End HelperNames.

(** C10, amended: in an environment that binds only names the notebook
    assigns, every call of [find_nearest] and every call of [evaluate]
    whose benchmark file is read and has at least one row raises
    [NameError] for [word_to_idx]; neither that name nor [idx_to_word] is
    assigned anywhere, the preprocessing binds [word2idx] and [idx2word];
    [find_nearest] also reads the global [embedding_weights], which only
    the training loop assigns. *)
Theorem helpers_read_undefined_names {F : Type} `{Stats F}
    (read_csv : string → string → result (list (row F)))
    (g : gmap string (value F)) :
  dom g ⊆ list_to_set notebook_names →
  (∀ word, find_nearest g word = Raise (NameError "word_to_idx"))
  ∧ (∀ filename w r rows,
       read_benchmark read_csv filename = Ok (r :: rows) →
       evaluate read_csv g filename w = Raise (NameError "word_to_idx"))
  ∧ ("word_to_idx" ∉ notebook_names) ∧ ("idx_to_word" ∉ notebook_names)
  ∧ ("word2idx" ∈ names_before_loop) ∧ ("idx2word" ∈ names_before_loop)
  ∧ ("embedding_weights" ∉ names_before_loop)
  ∧ ("embedding_weights" ∈ names_in_loop)
  ∧ (∀ d word i, d !! word = Some i →
       find_nearest
         (<["word_to_idx" := VDict d]> (delete "embedding_weights" g)) word
       = Raise (NameError "embedding_weights"))
  ∧ (∀ d w word i, d !! word = Some i →
       (0 ≤ i < Z.of_nat (length w))%Z →
       argsort ((λ e, cosine e (row_at w i)) <$> w) ≠ [] →
       find_nearest
         (<["word_to_idx" := VDict d]>
            (<["embedding_weights" := VArray w]> g)) word
       = Raise (NameError "idx_to_word"))
  ∧ (∀ filename w,
       read_benchmark read_csv filename = Ok [] →
       evaluate read_csv g filename w = Ok (spearmanr [] [])).
Proof.
  intros Hdom.
  assert (Hw : "word_to_idx" ∉ notebook_names) by decide_by_compute.
  assert (Hg : g !! "word_to_idx" = None)
    by (by apply notebook_env_undefined).
  split_and!; try decide_by_compute.
  - intros word. by apply find_nearest_NameError.
  - intros filename w r rows Hread. by eapply evaluate_NameError.
  - intros d word i Hi. unfold find_nearest, load_global.
    rewrite lookup_insert_eq. cbn [mbind result_bind as_dict].
    unfold dict_get. rewrite Hi. cbn [mbind result_bind].
    rewrite !lookup_insert_ne by done. by rewrite lookup_delete_eq.
  - intros d w word i Hi Hrange Hsort.
    assert (Hl : g !! "idx_to_word" = None)
      by (apply notebook_env_undefined; [done | decide_by_compute]).
    by apply (find_nearest_reads_idx_to_word g d w word i).
  - intros filename w Hread. by apply evaluate_no_rows.
Qed.

Lemma helpers_read_undefined_names_witness :
  dom (globals_before_loop pets) ⊆ list_to_set notebook_names
  ∧ (∀ word, find_nearest (globals_before_loop pets) word
             = Raise (NameError "word_to_idx"))
  ∧ (∀ filename w r rows,
       read_benchmark bench_fs filename = Ok (r :: rows) →
       evaluate bench_fs (globals_before_loop pets) filename w
       = Raise (NameError "word_to_idx"))
  ∧ ("word_to_idx" ∉ notebook_names) ∧ ("idx_to_word" ∉ notebook_names)
  ∧ ("word2idx" ∈ names_before_loop) ∧ ("idx2word" ∈ names_before_loop)
  ∧ ("embedding_weights" ∉ names_before_loop)
  ∧ ("embedding_weights" ∈ names_in_loop)
  ∧ (∀ d word i, d !! word = Some i →
       find_nearest
         (<["word_to_idx" := VDict d]>
            (delete "embedding_weights" (globals_before_loop pets))) word
       = Raise (NameError "embedding_weights"))
  ∧ (∀ d w word i, d !! word = Some i →
       (0 ≤ i < Z.of_nat (length w))%Z →
       argsort ((λ e, cosine e (row_at w i)) <$> w) ≠ [] →
       find_nearest
         (<["word_to_idx" := VDict d]>
            (<["embedding_weights" := VArray w]> (globals_before_loop pets)))
         word
       = Raise (NameError "idx_to_word"))
  ∧ (∀ filename w,
       read_benchmark bench_fs filename = Ok [] →
       evaluate bench_fs (globals_before_loop pets) filename w
       = Ok (spearmanr [] [])).
Proof.
  assert (Hdom : dom (globals_before_loop pets)
                 ⊆ list_to_set notebook_names)
    by decide_by_compute.
  split; [exact Hdom|].
  exact (helpers_read_undefined_names bench_fs
           (globals_before_loop pets) Hdom).
Defined.

(** C10 as stated fails on a benchmark file without data rows: the loop
    body never runs, no global is read and [evaluate] returns. *)
Lemma evaluate_header_only_returns :
  dom (globals_before_loop pets) ⊆ list_to_set notebook_names
  ∧ evaluate bench_fs (globals_before_loop pets) "header-only.txt"
      pets_weights = Ok (spearmanr [] [])
  ∧ ¬ (∀ filename w,
         ∃ name, evaluate bench_fs (globals_before_loop pets) filename w
                 = Raise (NameError name)).
Proof.
  split_and!.
  - decide_by_compute.
  - by vm_compute.
  - intros Hall. destruct (Hall "header-only.txt" pets_weights) as [n Hn].
    vm_compute in Hn. discriminate.
Qed.

(** C7, on a benchmark whose first pair is in the vocabulary and whose
    second pair has an unseen word: [evaluate] raises [NameError] at the
    first row; no pair is skipped and no correlation is returned. *)
Theorem evaluate_benchmark_raises :
  word2idx pets !! "tiger" = Some 0%Z ∧ word2idx pets !! "cat" = Some 1%Z
  ∧ word2idx pets !! "zebra" = None
  ∧ read_benchmark bench_fs "men.txt"
    = Ok [("tiger", "cat", SConst 7); ("tiger", "zebra", SConst 3)]
  ∧ evaluate bench_fs (globals_before_loop pets) "men.txt" pets_weights
    = Raise (NameError "word_to_idx").
Proof. vm_compute. done. Qed.

(** C9, for a query word of the vocabulary, with [embedding_weights]
    bound as in the training loop: [find_nearest] raises [NameError]
    and returns no neighbour. *)
Theorem find_nearest_raises :
  word2idx pets !! "monster" = Some 2%Z
  ∧ find_nearest
      (<["embedding_weights" := VArray pets_weights]>
         (globals_before_loop pets)) "monster"
    = Raise (NameError "word_to_idx").
Proof. vm_compute. done. Qed.

(** *** The helpers in an environment that binds the names they read *)

Section HelpersDefined.
Context {F : Type} `{Stats F}.
Variable read_csv : string → string → result (list (row F)).
Variables (g : gmap string (value F)) (d : gmap string Z)
          (w : list (list F)).
Hypothesis Hd : g !! "word_to_idx" = Some (VDict d).
Hypothesis Hrange :
  ∀ word i, d !! word = Some i → (0 ≤ i < Z.of_nat (length w))%Z.

Lemma py_index_row_at (i : Z) :
  (0 ≤ i < Z.of_nat (length w))%Z → py_index w i = Ok (row_at w i).
Proof.
  intros Hi. destruct (lookup_lt_is_Some_2 w (Z.to_nat i)) as [r Hr]; [lia|].
  unfold row_at. rewrite Hr. apply py_index_Ok; [lia | done].
Qed.

Lemma evaluate_row_kept acc (r : row F) :
  is_Some (d !! r.1.1) ∧ is_Some (d !! r.1.2) →
  evaluate_row g w acc r
  = Ok (acc.1 ++ [r.2], acc.2 ++ [model_sim d w r]).
Proof using Hd Hrange.
  destruct r as [[word1 word2] score]. cbn [fst snd].
  intros [[i1 H1] [i2 H2]]. unfold evaluate_row, load_global, model_sim.
  rewrite Hd. cbn [mbind result_bind as_dict fst snd].
  rewrite decide_False by congruence. cbn [mbind result_bind].
  rewrite bool_decide_eq_false_2 by congruence.
  unfold dict_get. rewrite H1, H2. cbn [mbind result_bind default].
  rewrite !py_index_row_at by eauto. done.
Qed.

Lemma evaluate_row_skipped acc (r : row F) :
  ¬ (is_Some (d !! r.1.1) ∧ is_Some (d !! r.1.2)) →
  evaluate_row g w acc r = Ok acc.
Proof using Hd.
  destruct r as [[word1 word2] score]. cbn [fst snd].
  intros Hnot. unfold evaluate_row, load_global.
  rewrite Hd. cbn [mbind result_bind as_dict].
  destruct (decide (d !! word1 = None)) as [|H1]; [done|].
  cbn [mbind result_bind].
  rewrite bool_decide_eq_true_2; [done|].
  destruct (d !! word2) eqn:H2; [|done].
  exfalso. apply Hnot. split; [|by eexists].
  by apply not_eq_None_Some.
Qed.

Lemma evaluate_rows_defined acc (rows : list (row F)) :
  evaluate_rows g w acc rows
  = Ok (acc.1 ++ (snd <$> kept_pairs d rows),
        acc.2 ++ (model_sim d w <$> kept_pairs d rows)).
Proof using Hd Hrange.
  revert acc. induction rows as [|r rows IH]; intros acc.
  - cbn. rewrite !app_nil_r. by destruct acc.
  - cbn [evaluate_rows]. unfold kept_pairs. rewrite filter_cons.
    case_decide as Hr.
    + rewrite evaluate_row_kept by done. cbn [mbind result_bind].
      rewrite IH. cbn [fst snd fmap list_fmap].
      by rewrite <- !app_assoc.
    + rewrite evaluate_row_skipped by done. cbn [mbind result_bind].
      by rewrite IH.
Qed.

(** Once [word_to_idx] names the vocabulary, [evaluate] skips the pairs
    with an unseen word and correlates the rest. *)
Lemma evaluate_defined filename rows :
  read_benchmark read_csv filename = Ok rows →
  evaluate read_csv g filename w = Ok (evaluate_spec d w rows).
Proof using Hd Hrange.
  intros Hread. unfold evaluate. rewrite Hread. cbn [mbind result_bind].
  by rewrite evaluate_rows_defined.
Qed.

(** Likewise [find_nearest] returns the words of the ten first indices
    of the argsort of the cosine distances, the query included. *)
Lemma find_nearest_defined (l : list string) word i :
  g !! "embedding_weights" = Some (VArray w) →
  g !! "idx_to_word" = Some (VWords l) →
  d !! word = Some i →
  (∀ j, j ∈ argsort ((λ e, cosine e (row_at w i)) <$> w) →
        (0 ≤ j < Z.of_nat (length l))%Z) →
  find_nearest g word = Ok (find_nearest_spec l w i).
Proof using Hd Hrange.
  intros Hw Hl Hi Hsort. unfold find_nearest, load_global, dict_get.
  rewrite Hd. cbn [mbind result_bind as_dict].
  rewrite Hi. cbn [mbind result_bind].
  rewrite Hw. cbn [mbind result_bind as_array].
  rewrite py_index_row_at by eauto. cbn [mbind result_bind].
  unfold find_nearest_spec. apply mapM_Ok_fmap.
  intros j (k & Hk & _)%elem_of_take. rewrite Hl.
  cbn [mbind result_bind as_words].
  assert (Hj : (0 ≤ j < Z.of_nat (length l))%Z)
    by (apply Hsort; by eapply list_elem_of_lookup_2).
  destruct (lookup_lt_is_Some_2 l (Z.to_nat j)) as [x Hx]; [lia|].
  rewrite Hx. apply py_index_Ok; [lia | done].
Qed.

End HelpersDefined.

(** ** The training loop under [nn.DataParallel] *)

Section TrainingWrapped.
Context {F : Type} `{Scalar F} `{Stats F}.
Variable read_csv : string → string → result (list (row F)).
Variable sgd_step : EmbeddingModel F → batch → EmbeddingModel F.
Variable parallel_forward :
  nat → EmbeddingModel F → batch → result (tensor F).

Lemma setup_model_wrapped USE_CUDA NUM_CUDA (m : EmbeddingModel F) :
  1 < NUM_CUDA → setup_model USE_CUDA NUM_CUDA m = DataParallel NUM_CUDA m.
Proof.
  intros Hn. unfold setup_model.
  destruct (Nat.ltb_spec 1 NUM_CUDA) as [_|?]; [|lia].
  by destruct USE_CUDA.
Qed.

Lemma setup_model_plain USE_CUDA NUM_CUDA (m : EmbeddingModel F) :
  NUM_CUDA ≤ 1 → setup_model USE_CUDA NUM_CUDA m = Plain m.
Proof.
  intros Hn. unfold setup_model.
  destruct (Nat.ltb_spec 1 NUM_CUDA) as [?|_]; [lia|].
  by destruct USE_CUDA.
Qed.

Lemma call_input_embeddings_wrapped n (m : EmbeddingModel F) :
  call_input_embeddings (DataParallel n m) = Raise no_accessor.
Proof. done. Qed.

Lemma call_input_embeddings_plain (m : EmbeddingModel F) :
  call_input_embeddings (Plain m) = Ok (input_embeddings m).
Proof. done. Qed.

Lemma evaluation_step_wrapped e i (st : train_state) n m :
  model st = DataParallel n m →
  evaluation_step read_csv e i st = Raise no_accessor.
Proof. intros Hm. unfold evaluation_step. by rewrite Hm. Qed.

Lemma end_of_epoch_wrapped (st : train_state) n m :
  model st = DataParallel n m → end_of_epoch st = Raise no_accessor.
Proof. intros Hm. unfold end_of_epoch. by rewrite Hm. Qed.

Lemma iteration_wrapped e i b (st : train_state) n m :
  model st = DataParallel n m → i mod 2000 = 0 →
  iteration read_csv sgd_step parallel_forward e i b st
  = (_ ← parallel_forward n m b; Raise no_accessor).
Proof.
  intros Hm Hi. unfold iteration. rewrite Hm. cbn [call_model].
  destruct (parallel_forward n m b) as [lv|err]; cbn [mbind result_bind];
    [|done].
  rewrite Hi. cbn [Nat.eqb].
  eapply evaluation_step_wrapped.
  by destruct (i mod 100 =? 0).
Qed.

Lemma iteration_keeps_wrapper e i b (st st' : train_state) n m :
  model st = DataParallel n m →
  iteration read_csv sgd_step parallel_forward e i b st = Ok st' →
  ∃ m', model st' = DataParallel n m'.
Proof.
  intros Hm. unfold iteration. rewrite Hm. cbn [call_model].
  destruct (parallel_forward n m b) as [lv|err]; cbn [mbind result_bind];
    [|done].
  destruct (i mod 2000 =? 0).
  - erewrite evaluation_step_wrapped; [done|].
    by destruct (i mod 100 =? 0).
  - intros [= <-]. exists (sgd_step m b). by case_match.
Qed.

Lemma run_batches_keeps_wrapper e bs :
  ∀ i (st st' : train_state) n m,
  model st = DataParallel n m →
  run_batches read_csv sgd_step parallel_forward e i bs st = Ok st' →
  ∃ m', model st' = DataParallel n m'.
Proof.
  induction bs as [|b bs IH]; intros i st st' n m Hm; cbn [run_batches].
  - intros [= <-]. by exists m.
  - destruct (iteration _ _ _ e i b st) as [st1|err] eqn:Hit;
      cbn [mbind result_bind]; [|done].
    destruct (iteration_keeps_wrapper _ _ _ _ _ _ _ Hm Hit) as [m1 Hm1].
    by apply (IH _ _ _ _ _ Hm1).
Qed.

Lemma iteration_wrapped_raises e i b (st : train_state) n m lv :
  model st = DataParallel n m → i mod 2000 = 0 →
  parallel_forward n m b = Ok lv →
  iteration read_csv sgd_step parallel_forward e i b st = Raise no_accessor.
Proof.
  intros Hm Hi Hlv. erewrite iteration_wrapped; [|exact Hm|exact Hi].
  by rewrite Hlv.
Qed.

Lemma iteration_wrapped_goes_on e i b (st : train_state) n m lv :
  model st = DataParallel n m → i mod 2000 ≠ 0 →
  parallel_forward n m b = Ok lv →
  ∃ st', iteration read_csv sgd_step parallel_forward e i b st = Ok st'
    ∧ model st' = DataParallel n (sgd_step m b).
Proof.
  intros Hm Hi Hlv. unfold iteration. rewrite Hm. cbn [call_model].
  rewrite Hlv. cbn [mbind result_bind step_model].
  destruct (Nat.eqb_spec (i mod 2000) 0) as [?|_]; [done|].
  eexists. split; [reflexivity|]. by destruct (i mod 100 =? 0).
Qed.

(** C8: with more than one CUDA device cell 17 wraps the model in
    [nn.DataParallel], through which [input_embeddings] is not reachable
    (on the bare model it is). From then on every evaluation step raises
    [AttributeError] at [model.input_embeddings]: every turn of the loop
    with [i % 2000 == 0] whose forward pass has returned raises it, so
    that the batches after it are not run, while the other turns go on
    with the wrapper kept. The first turn is such a turn: the run raises
    the exception there, and no training run completes. *)
Theorem data_parallel_evaluation_fails (h : hyper) (USE_CUDA : bool)
    (NUM_CUDA : nat) (m0 : EmbeddingModel F) (st0 : train_state) :
  1 < NUM_CUDA → 0 < EPOCHS h →
  model st0 = setup_model USE_CUDA NUM_CUDA m0 →
  model st0 = DataParallel NUM_CUDA m0
  ∧ (∀ n (m : EmbeddingModel F),
       call_input_embeddings (DataParallel n m) = Raise no_accessor
       ∧ call_input_embeddings (Plain m) = Ok (input_embeddings m))
  ∧ (∀ e i (st : train_state) n m,
       model st = DataParallel n m →
       evaluation_step read_csv e i st = Raise no_accessor)
  ∧ (∀ e i b (st : train_state) n m lv,
       model st = DataParallel n m → i mod 2000 = 0 →
       parallel_forward n m b = Ok lv →
       iteration read_csv sgd_step parallel_forward e i b st
       = Raise no_accessor
       ∧ ∀ rest,
           run_batches read_csv sgd_step parallel_forward e i (b :: rest) st
           = Raise no_accessor)
  ∧ (∀ e i b (st : train_state) n m lv,
       model st = DataParallel n m → i mod 2000 ≠ 0 →
       parallel_forward n m b = Ok lv →
       ∃ st', iteration read_csv sgd_step parallel_forward e i b st = Ok st'
         ∧ model st' = DataParallel n (sgd_step m b))
  ∧ (∀ loader b rest lv,
       loader 0 = b :: rest → parallel_forward NUM_CUDA m0 b = Ok lv →
       train read_csv sgd_step parallel_forward h loader st0
       = Raise no_accessor)
  ∧ (∀ loader, ∃ err,
       train read_csv sgd_step parallel_forward h loader st0 = Raise err).
Proof.
  intros Hn He Hm0. rewrite setup_model_wrapped in Hm0 by done.
  split_and!; [done|done| | | | |].
  - intros e i st n m Hm. by eapply evaluation_step_wrapped.
  - intros e i b st n m lv Hm Hi Hlv.
    pose proof (iteration_wrapped_raises e i b st n m lv Hm Hi Hlv) as Hit.
    split; [done|]. intros rest. cbn [run_batches]. by rewrite Hit.
  - intros e i b st n m lv Hm Hi Hlv.
    by eapply iteration_wrapped_goes_on.
  - intros loader b rest lv Hb Hlv. unfold train.
    destruct (EPOCHS h) as [|k]; [lia|]. cbn [seq run_epochs].
    rewrite Hb. cbn [run_batches].
    erewrite iteration_wrapped; [|exact Hm0|done].
    by rewrite Hlv.
  - intros loader. unfold train.
    destruct (EPOCHS h) as [|k]; [lia|]. cbn [seq run_epochs].
    destruct (run_batches _ _ _ 0 0 (loader 0) _) as [st1|err] eqn:Hrun;
      cbn [mbind result_bind]; [|by eexists].
    apply (run_batches_keeps_wrapper _ _ _ _ _ NUM_CUDA m0) in Hrun
      as [m1 Hm1]; [|done].
    rewrite (end_of_epoch_wrapped st1 _ _ Hm1). by eexists.
Qed.

End TrainingWrapped.

Lemma data_parallel_evaluation_fails_witness :
  (1 < 2 ∧ 0 < EPOCHS notebook
   ∧ model two_gpu_state = setup_model true 2 model129)
  ∧ model two_gpu_state = DataParallel 2 model129
  ∧ (∀ n (m : EmbeddingModel sym),
       call_input_embeddings (DataParallel n m) = Raise no_accessor
       ∧ call_input_embeddings (Plain m) = Ok (input_embeddings m))
  ∧ (∀ e i (st : train_state) n m,
       model st = DataParallel n m →
       evaluation_step bench_fs e i st = Raise no_accessor)
  ∧ (∀ e i b (st : train_state) n m lv,
       model st = DataParallel n m → i mod 2000 = 0 →
       sym_parallel_forward n m b = Ok lv →
       iteration bench_fs sym_sgd_step sym_parallel_forward e i b st
       = Raise no_accessor
       ∧ ∀ rest,
           run_batches bench_fs sym_sgd_step sym_parallel_forward e i
             (b :: rest) st
           = Raise no_accessor)
  ∧ (∀ e i b (st : train_state) n m lv,
       model st = DataParallel n m → i mod 2000 ≠ 0 →
       sym_parallel_forward n m b = Ok lv →
       ∃ st', iteration bench_fs sym_sgd_step sym_parallel_forward e i b st
              = Ok st'
         ∧ model st' = DataParallel n (sym_sgd_step m b))
  ∧ (∀ loader b rest lv,
       loader 0 = b :: rest → sym_parallel_forward 2 model129 b = Ok lv →
       train bench_fs sym_sgd_step sym_parallel_forward notebook loader
         two_gpu_state = Raise no_accessor)
  ∧ (∀ loader, ∃ err,
       train bench_fs sym_sgd_step sym_parallel_forward notebook loader
         two_gpu_state = Raise err).
Proof.
  assert (H1 : 1 < 2) by lia.
  assert (H2 : 0 < EPOCHS notebook) by (simpl; lia).
  assert (H3 : model two_gpu_state = setup_model true 2 model129)
    by reflexivity.
  split; [exact (conj H1 (conj H2 H3))|].
  exact (data_parallel_evaluation_fails bench_fs sym_sgd_step
           sym_parallel_forward notebook true 2 model129 two_gpu_state
           H1 H2 H3).
Defined.

(** The run on the 129-token corpus with two devices: one loss line is
    written, then the first evaluation step ends the run. *)
Example two_gpu_run_stops_at_first_evaluation :
  train bench_fs sym_sgd_step sym_parallel_forward notebook loader129
    two_gpu_state = Raise no_accessor.
Proof.
  unfold train. cbn [EPOCHS notebook seq run_epochs].
  change (loader129 0) with (zero_batch 128 :: [zero_batch 1]).
  cbn [run_batches].
  by erewrite iteration_wrapped.
Qed.

(** Without the wrapper the accessor is found, and the evaluation step
    goes on to [evaluate], which reads the undefined [word_to_idx] as
    soon as the first benchmark file has a row. *)
Lemma plain_evaluation_step_NameError {F : Type} `{Scalar F} `{Stats F}
    (read_csv : string → string → result (list (row F)))
    (e i : nat) (st : train_state) (m : EmbeddingModel F) r rows :
  model st = Plain m →
  dom (env st) ⊆ list_to_set notebook_names →
  read_benchmark read_csv "simlex-999.txt" = Ok (r :: rows) →
  evaluation_step read_csv e i st = Raise (NameError "word_to_idx").
Proof.
  intros Hm Hdom Hread. unfold evaluation_step. rewrite Hm.
  rewrite call_input_embeddings_plain. cbn [mbind result_bind].
  set (g1 := <["embedding_weights" := _]> (env st)).
  rewrite (evaluate_NameError read_csv g1 "simlex-999.txt" _ r rows);
    [done| |exact Hread].
  subst g1. rewrite lookup_insert_ne by done.
  apply notebook_env_undefined; [done | decide_by_compute].
Qed.

(** *** The loop without the wrapper *)

Lemma insert_keeps_names {F} (g : gmap string (value F)) n v :
  n ∈ notebook_names → dom g ⊆ list_to_set notebook_names →
  dom (<[n := v]> g) ⊆ list_to_set notebook_names.
Proof.
  intros Hn Hg x. rewrite dom_insert_L, elem_of_union, elem_of_singleton.
  intros [->|Hx]; [by apply elem_of_list_to_set | by apply Hg].
Qed.

Lemma globals_before_loop_names {F} (p : preprocessed F) :
  dom (globals_before_loop p) ⊆ list_to_set notebook_names.
Proof.
  unfold globals_before_loop.
  do 2 (apply insert_keeps_names; [decide_by_compute|]).
  assert (Hgen : ∀ l, (∀ n, n ∈ l → n ∈ notebook_names) →
            dom (foldr (λ n g, <[n := VOther]> g)
                   (∅ : gmap string (value F)) l)
            ⊆ list_to_set notebook_names).
  { induction l as [|n l IH]; intros Hl; cbn [foldr].
    - rewrite dom_empty_L. apply empty_subseteq.
    - apply insert_keeps_names; [apply Hl; left|].
      apply IH. intros n' Hn'. apply Hl. by right. }
  apply Hgen. intros n Hn. unfold notebook_names.
  apply elem_of_app. by left.
Qed.

(** On one device or none the first evaluation step ends the run as
    well, with the [NameError] of [evaluate]. *)
Lemma plain_training_stops {F : Type} `{Scalar F} `{Stats F}
    (read_csv : string → string → result (list (row F)))
    (sgd_step : EmbeddingModel F → batch → EmbeddingModel F)
    (parallel_forward : nat → EmbeddingModel F → batch → result (tensor F))
    (h : hyper) (USE_CUDA : bool) (NUM_CUDA : nat) (m0 : EmbeddingModel F)
    (st0 : train_state) loader b rest lv r rows :
  NUM_CUDA ≤ 1 → 0 < EPOCHS h →
  model st0 = setup_model USE_CUDA NUM_CUDA m0 →
  dom (env st0) ⊆ list_to_set notebook_names →
  loader 0 = b :: rest → forward m0 b = Ok lv →
  read_benchmark read_csv "simlex-999.txt" = Ok (r :: rows) →
  train read_csv sgd_step parallel_forward h loader st0
  = Raise (NameError "word_to_idx").
Proof.
  intros Hn He Hm0 Hdom Hb Hlv Hread.
  rewrite setup_model_plain in Hm0 by done.
  unfold train. destruct (EPOCHS h) as [|k]; [lia|].
  cbn [seq run_epochs]. rewrite Hb. cbn [run_batches].
  unfold iteration. cbn [model env log_file saved]. rewrite Hm0.
  cbn [call_model]. rewrite Hlv. cbn [mbind result_bind].
  change (0 mod 100 =? 0) with true. change (0 mod 2000 =? 0) with true.
  cbn match.
  erewrite (plain_evaluation_step_NameError read_csv 0 0 _ (sgd_step m0 b));
    [done|done| |exact Hread].
  cbn [env bind_names foldr].
  repeat (apply insert_keeps_names; [decide_by_compute|]). done.
Qed.

(** ** The sampling distribution in binary32 *)

Lemma zero_counts_give_nan (L : float_lib) (h : hyper) (file : string) k :
  ieee_lib L →
  values (vocab_of h (word_tockenize (lower file))) = replicate (S k) 0%Z →
  word_counts (text_preprocess (H:=f32_scalar L) h file)
  = replicate (S k) f32_zero
  ∧ word_freqs (text_preprocess (H:=f32_scalar L) h file)
    = replicate (S k) f32_nan.
Proof.
  intros [Hnan Hzeros Hpow] Hv. unfold text_preprocess.
  cbn [word_counts word_freqs]. rewrite Hv.
  cbn [of_count fdiv fsum fpow34 f32_scalar].
  rewrite !fmap_replicate.
  change (f32_of_Z 0) with f32_zero. split; [done|].
  rewrite Hzeros.
  change (SpecFloat.SFdiv 24 128 f32_zero f32_zero) with f32_nan.
  rewrite Hpow, Hnan by (cbn; left). done.
Qed.

Lemma nan_not_summable (ws : list f32) :
  f32_nan ∈ ws → ¬ sums_to_one ws.
Proof.
  intros Hin (qs & Hqs & _).
  induction ws as [|w ws IH] in qs, Hin, Hqs |- *;
    [by apply elem_of_nil in Hin|].
  cbn in Hqs. apply elem_of_cons in Hin as [<-|Hin]; [done|].
  destruct (f32_value w); [|done]. cbn in Hqs.
  destruct (mapM f32_value ws) as [qs'|] eqn:Hm; [|done].
  by eapply IH.
Qed.

(** C5, on a training file that holds the single token ["<unk>"] and on
    an empty one: every stored count is 0, so the frequencies are
    [0/0]; [word_freqs] is the one-entry array [nan]. Its [np.sum] is
    NaN, its entries do not sum to 1 within 1e-6, the word that occurs
    once has no positive probability, and [__getitem__] raises at
    [torch.multinomial] for any sampler that rejects NaN weights. *)
Theorem text_preprocess_zero_counts_nan (L : float_lib) (S0 : Sampler f32)
    (s : rng) :
  ieee_lib L →
  (∀ ws, f32_nan ∈ ws → valid_weights ws = false) →
  let p := text_preprocess (H:=f32_scalar L) notebook "<unk>" in
  let ds := notebook_dataset (H:=f32_scalar L) notebook "<unk>" in
  let q := text_preprocess (H:=f32_scalar L) notebook "" in
  (text p = ["<unk>"] ∧ idx2word p = ["<unk>"]
   ∧ occurrences "<unk>" (text p) = 1%Z
   ∧ word_counts p = [f32_zero]
   ∧ word_freqs p = [f32_nan]
   ∧ lib_sum L (word_freqs p) = f32_nan
   ∧ ¬ sums_to_one (word_freqs p)
   ∧ ¬ Forall f32_positive (word_freqs p)
   ∧ getitem notebook ds 0 s
     = Raise (RuntimeError "invalid multinomial distribution"))
  ∧ (text q = [] ∧ idx2word q = ["<unk>"]
     ∧ word_counts q = [f32_zero]
     ∧ word_freqs q = [f32_nan]
     ∧ lib_sum L (word_freqs q) = f32_nan
     ∧ ¬ sums_to_one (word_freqs q)).
Proof.
  intros HL Hrej p ds q.
  destruct (zero_counts_give_nan L notebook "<unk>" 0 HL) as [Hc Hf];
    [by vm_compute|].
  destruct (zero_counts_give_nan L notebook "" 0 HL) as [Hc' Hf'];
    [by vm_compute|].
  fold p in Hc, Hf. fold q in Hc', Hf'. cbn [replicate] in *.
  split; split_and!; try done.
  - rewrite Hf. apply (lib_sum_nan L HL). left.
  - rewrite Hf. apply nan_not_summable. left.
  - rewrite Hf. intros [(x & [=] & _) _]%Forall_cons.
  - assert (Henc : text_encoded ds = [0%Z]) by (by vm_compute).
    assert (Hws : ds_word_freqs ds = [f32_nan]) by exact Hf.
    unfold getitem. rewrite Henc, Hws.
    unfold multinomial_replacement. rewrite Hrej by left. done.
  - rewrite Hf'. apply (lib_sum_nan L HL). left.
  - rewrite Hf'. apply nan_not_summable. left.
Qed.

Lemma f32_add_nan_r (x : f32) : SpecFloat.SFadd 24 128 x f32_nan = f32_nan.
Proof. by destruct x. Qed.

Lemma foldl_add_nan (l : list f32) (acc : f32) :
  acc = f32_nan ∨ f32_nan ∈ l →
  foldl (SpecFloat.SFadd 24 128) acc l = f32_nan.
Proof.
  revert acc. induction l as [|x l IH]; intros acc Hnan; cbn [foldl].
  - destruct Hnan as [?|Hin]; [done | by apply elem_of_nil in Hin].
  - apply IH. destruct Hnan as [->|[<-|Hin]%elem_of_cons].
    + by left.
    + left. apply f32_add_nan_r.
    + by right.
Qed.

Lemma reference_lib_ieee : ieee_lib reference_lib.
Proof.
  split.
  - intros l Hl. apply foldl_add_nan. by right.
  - intros k. cbn [lib_sum reference_lib].
    induction k as [|k IH]; [done|].
    cbn [replicate foldl] in *. exact IH.
  - done.
Qed.

Lemma reference_sampler_rejects_nan (ws : list f32) :
  f32_nan ∈ ws → valid_weights (Sampler:=reference_sampler) ws = false.
Proof.
  intros Hin. cbn [valid_weights reference_sampler].
  apply andb_false_iff. left. apply not_true_is_false.
  intros Hall. rewrite forallb_forall in Hall.
  by specialize (Hall f32_nan (proj1 (list_elem_of_In _ _) Hin)).
Qed.

Lemma text_preprocess_zero_counts_nan_witness :
  (ieee_lib reference_lib
   ∧ (∀ ws, f32_nan ∈ ws →
        valid_weights (Sampler:=reference_sampler) ws = false))
  ∧ (text (text_preprocess (H:=f32_scalar reference_lib) notebook "<unk>")
     = ["<unk>"]
     ∧ idx2word (text_preprocess (H:=f32_scalar reference_lib) notebook
                   "<unk>") = ["<unk>"]
     ∧ occurrences "<unk>"
         (text (text_preprocess (H:=f32_scalar reference_lib) notebook
                  "<unk>")) = 1%Z
     ∧ word_counts (text_preprocess (H:=f32_scalar reference_lib) notebook
                      "<unk>") = [f32_zero]
     ∧ word_freqs (text_preprocess (H:=f32_scalar reference_lib) notebook
                     "<unk>") = [f32_nan]
     ∧ lib_sum reference_lib
         (word_freqs (text_preprocess (H:=f32_scalar reference_lib) notebook
                        "<unk>")) = f32_nan
     ∧ ¬ sums_to_one
           (word_freqs (text_preprocess (H:=f32_scalar reference_lib)
                          notebook "<unk>"))
     ∧ ¬ Forall f32_positive
           (word_freqs (text_preprocess (H:=f32_scalar reference_lib)
                          notebook "<unk>"))
     ∧ getitem (H:=reference_sampler) notebook
         (notebook_dataset (H:=f32_scalar reference_lib) notebook "<unk>")
         0 (0 : @rng f32 reference_sampler)
       = Raise (RuntimeError "invalid multinomial distribution"))
  ∧ (text (text_preprocess (H:=f32_scalar reference_lib) notebook "") = []
     ∧ idx2word (text_preprocess (H:=f32_scalar reference_lib) notebook "")
       = ["<unk>"]
     ∧ word_counts (text_preprocess (H:=f32_scalar reference_lib) notebook "")
       = [f32_zero]
     ∧ word_freqs (text_preprocess (H:=f32_scalar reference_lib) notebook "")
       = [f32_nan]
     ∧ lib_sum reference_lib
         (word_freqs (text_preprocess (H:=f32_scalar reference_lib) notebook
                        "")) = f32_nan
     ∧ ¬ sums_to_one
           (word_freqs (text_preprocess (H:=f32_scalar reference_lib)
                          notebook ""))).
Proof.
  split; [exact (conj reference_lib_ieee reference_sampler_rejects_nan)|].
  exact (text_preprocess_zero_counts_nan reference_lib reference_sampler
           (0 : @rng f32 reference_sampler)
           reference_lib_ieee reference_sampler_rejects_nan).
Defined.

(** On the reference library the distribution of the corpus ["a b a"]
    consists of numbers that sum to 1. *)
Example sums_to_one_reference :
  sums_to_one
    (word_freqs (text_preprocess (H:=f32_scalar reference_lib) notebook
                   "a b a")).
Proof.
  eexists. split; [vm_compute; reflexivity|]. by vm_compute.
Qed.

(** * Further properties *)

(** ** The tokenizer *)

Lemma string_forallb_app f (s t : string) :
  string_forallb f (s +:+ t) = string_forallb f s && string_forallb f t.
Proof.
  induction s as [|a s IH]; [done|].
  change (String a s +:+ t) with (String a (s +:+ t)).
  cbn [string_forallb]. by rewrite IH, andb_assoc.
Qed.

Lemma lower_ascii_token_char (a : ascii) :
  is_ascii a = true → is_space a = false →
  token_char (lower_ascii a) = true.
Proof. destruct a as [[] [] [] [] [] [] [] []]; by vm_compute. Qed.

Lemma is_space_lower_ascii (a : ascii) :
  is_space (lower_ascii a) = is_space a.
Proof. destruct a as [[] [] [] [] [] [] [] []]; by vm_compute. Qed.

Lemma split_from_lower_tokens (s cur : string) :
  string_forallb is_ascii s = true →
  string_forallb token_char cur = true →
  Forall (λ t, t ≠ EmptyString ∧ string_forallb token_char t = true)
    (split_from cur (lower s)).
Proof.
  revert cur.
  induction s as [|a s IH]; intros cur Hs Hcur; cbn [lower split_from].
  - destruct cur; cbn; [constructor|]. by repeat constructor.
  - cbn [string_forallb] in Hs. apply andb_prop in Hs as [Ha Hs].
    rewrite is_space_lower_ascii. destruct (is_space a) eqn:Hsp.
    + destruct cur; cbn [flush]; [by apply IH|].
      constructor; [done | by apply IH].
    + apply IH; [done|]. rewrite string_forallb_app, Hcur. cbn.
      by rewrite lower_ascii_token_char.
Qed.

(** X1: on an ASCII file, every token that [text_preprocess] reads from
    the lower-cased text is non-empty and made of ASCII characters that
    are neither whitespace nor upper-case letters. *)
Theorem tokens_are_clean (file : string) :
  string_forallb is_ascii file = true →
  Forall (λ t, t ≠ EmptyString ∧ string_forallb token_char t = true)
    (word_tockenize (lower file)).
Proof. intros Hfile. by apply split_from_lower_tokens. Qed.

Lemma tokens_are_clean_witness :
  string_forallb is_ascii "The  Cat SAT " = true
  ∧ Forall (λ t, t ≠ EmptyString ∧ string_forallb token_char t = true)
      (word_tockenize (lower "The  Cat SAT ")).
Proof.
  assert (H1 : string_forallb is_ascii "The  Cat SAT " = true)
    by reflexivity.
  split; [exact H1|].
  exact (tokens_are_clean "The  Cat SAT " H1).
Defined.

(** ** Counting *)

Lemma occurrences_snoc w t text :
  occurrences w (text ++ [t])
  = (occurrences w text + if decide (t = w) then 1 else 0)%Z.
Proof.
  unfold occurrences. rewrite filter_app, length_app.
  rewrite filter_cons, filter_nil. case_decide; cbn; lia.
Qed.

Lemma occurrences_pos w text : w ∈ text ↔ (1 ≤ occurrences w text)%Z.
Proof.
  unfold occurrences. split.
  - intros Hw. assert (Hin : w ∈ filter (λ t, t = w) text)
      by (by apply list_elem_of_filter).
    destruct (filter _ text); [by apply elem_of_nil in Hin | cbn; lia].
  - intros Hlen. destruct (filter (λ t, t = w) text) as [|x l] eqn:Hf;
      [cbn in Hlen; lia|].
    assert (Hx : x ∈ filter (λ t, t = w) text) by (rewrite Hf; left).
    apply list_elem_of_filter in Hx as [-> Hx]. done.
Qed.

Lemma occurrences_notin w text : w ∉ text → occurrences w text = 0%Z.
Proof.
  intros Hw. assert (¬ (1 ≤ occurrences w text)%Z)
    by (by rewrite <- occurrences_pos).
  unfold occurrences in *. lia.
Qed.

Lemma elem_of_counter_add w (c : odict) kv :
  NoDup (keys c) →
  kv ∈ counter_add w c ↔
    (kv.1 = w ∧ ((w, (kv.2 - 1)%Z) ∈ c ∨ ((w ∉ keys c) ∧ kv.2 = 1%Z)))
    ∨ (kv.1 ≠ w ∧ kv ∈ c).
Proof.
  destruct kv as [k' v']. cbn [fst snd].
  induction c as [|[k v] c IH]; intros Hnd; cbn [counter_add].
  - rewrite list_elem_of_singleton. split.
    + intros [= -> ->]. left. split; [done|]. right. split; [|done].
      apply not_elem_of_nil.
    + intros [[-> [Hin|[_ ->]]]|[_ Hin]]; [|done|];
        by apply elem_of_nil in Hin.
  - apply NoDup_cons in Hnd as [Hk Hnd]. specialize (IH Hnd).
    destruct (String.eqb_spec k w) as [->|Hne].
    + rewrite !elem_of_cons. split.
      * intros [[= -> ->]|Hin].
        -- left. split; [done|]. left. left. f_equal. lia.
        -- destruct (decide (k' = w)) as [->|Hk'].
           ++ exfalso. apply Hk. by apply (list_elem_of_fmap_2 fst) in Hin.
           ++ right. split; [done|]. by right.
      * intros [[-> [[Heq|Hin]|[Hnot _]]]|[Hk' [Heq|Hin]]].
        -- left. injection Heq as Heq. f_equal. lia.
        -- exfalso. apply Hk. by apply (list_elem_of_fmap_2 fst) in Hin.
        -- exfalso. apply Hnot. left.
        -- congruence.
        -- by right.
    + rewrite !elem_of_cons, IH. split.
      * intros [[= -> ->]|[[-> [Hin|[Hnot ->]]]|[Hk' Hin]]].
        -- right. split; [done|]. by left.
        -- left. split; [done|]. left. by right.
        -- left. split; [done|]. right. split; [|done].
           cbn. intros [?|?]%elem_of_cons; [congruence | done].
        -- right. split; [done|]. by right.
      * intros [[-> [[Heq|Hin]|[Hnot ->]]]|[Hk' [Heq|Hin]]].
        -- congruence.
        -- right. left. split; [done|]. by left.
        -- right. left. split; [done|]. right. split; [|done].
           intros Hin. apply Hnot. by right.
        -- by left.
        -- right. right. by split.
Qed.

Lemma Counter_snoc text w :
  Counter (text ++ [w]) = counter_add w (Counter text).
Proof. unfold Counter. by rewrite fold_left_app. Qed.

Lemma elem_of_Counter text kv :
  kv ∈ Counter text ↔ kv.1 ∈ text ∧ kv.2 = occurrences kv.1 text.
Proof.
  revert kv. induction text as [|w text IH] using rev_ind; intros kv.
  - split; [by intros ?%elem_of_nil | by intros [?%elem_of_nil _]].
  - rewrite Counter_snoc, elem_of_counter_add by apply NoDup_keys_Counter.
    rewrite occurrences_snoc, elem_of_app, list_elem_of_singleton.
    destruct kv as [k v]. cbn [fst snd]. split.
    + intros [[-> [Hin|[Hnot ->]]]|[Hne Hin]].
      * apply IH in Hin as [Hin Hv]. cbn [fst snd] in *.
        split; [by left|]. rewrite decide_True by done. lia.
      * split; [by right|]. rewrite decide_True by done.
        assert (occurrences w text = 0%Z); [|lia].
        destruct (decide (w ∈ text)) as [Hw|Hw].
        -- exfalso. apply Hnot.
           assert (Hc : (w, occurrences w text) ∈ Counter text)
             by (by apply IH).
           by apply (list_elem_of_fmap_2 fst) in Hc.
        -- by apply occurrences_notin.
      * apply IH in Hin as [Hin Hv]. cbn [fst snd] in *.
        split; [by left|]. rewrite decide_False by done. lia.
    + intros [Hin ->]. destruct (decide (k = w)) as [->|Hne].
      * left. split; [done|]. rewrite decide_True by done.
        destruct (decide (w ∈ text)) as [Hw|Hw].
        -- left. apply IH. cbn [fst snd]. split; [done | lia].
        -- right. split.
           ++ intros (kv & Hkv & Hkv')%list_elem_of_fmap.
              apply IH in Hkv' as [? _]. congruence.
           ++ by rewrite occurrences_notin.
      * right. split; [done|]. apply IH. cbn [fst snd].
        destruct Hin as [Hin | ->]; [|done].
        split; [done|]. rewrite decide_False by done. lia.
Qed.

(** X2: [Counter(text)] holds exactly the words of the text, each with
    the number of its occurrences. *)
Theorem Counter_counts_occurrences (text : list string) (w : string) (c : Z) :
  (w, c) ∈ Counter text ↔ w ∈ text ∧ c = occurrences w text.
Proof. apply (elem_of_Counter text (w, c)). Qed.

(** ** The kept words *)

Lemma insert_desc_sorted x (s : odict) :
  StronglySorted (λ a b, (b.2 ≤ a.2)%Z) s →
  StronglySorted (λ a b, (b.2 ≤ a.2)%Z) (insert_desc x s).
Proof.
  induction s as [|y s IH]; intros Hs; cbn [insert_desc].
  - repeat constructor.
  - apply StronglySorted_inv in Hs as [Hs Hy].
    destruct (Z.ltb_spec x.2 y.2) as [Hlt|Hge].
    + constructor; [by apply IH|].
      rewrite insert_desc_perm. constructor; [lia | done].
    + constructor; [by constructor|].
      constructor; [done|]. eapply Forall_impl; [exact Hy|].
      intros z Hz. cbn in Hz. lia.
Qed.

Lemma sort_desc_sorted (c : odict) :
  StronglySorted (λ a b, (b.2 ≤ a.2)%Z) (sort_desc c).
Proof.
  induction c as [|x c IH]; cbn [sort_desc]; [constructor|].
  by apply insert_desc_sorted.
Qed.

Lemma sorted_app_le (l k : odict) a b :
  StronglySorted (λ a b, (b.2 ≤ a.2)%Z) (l ++ k) →
  a ∈ l → b ∈ k → (b.2 ≤ a.2)%Z.
Proof.
  induction l as [|x l IH]; intros Hs Ha Hb; [by apply elem_of_nil in Ha|].
  cbn in Hs. apply StronglySorted_inv in Hs as [Hs Hx].
  apply elem_of_cons in Ha as [->|Ha]; [|by apply IH].
  eapply (proj1 (Forall_forall _ _)) in Hx; [exact Hx|].
  apply elem_of_app. by right.
Qed.

Lemma kept_words_counts h text w :
  w ∈ kept_words h text →
  (w, occurrences w text)
    ∈ most_common (MAX_VOCAB_SIZE h - 1) (Counter text).
Proof.
  unfold kept_words, keys. intros ([w' c] & -> & Hin)%list_elem_of_fmap.
  pose proof (most_common_subseteq _ _ _ Hin) as Hc.
  apply elem_of_Counter in Hc as [_ Hc]. cbn [fst snd] in *. by subst c.
Qed.

(** X3: the words kept under their own name are the most frequent ones:
    a word of the text that is left out occurs at most as often as any
    kept word. *)
Theorem kept_words_most_frequent (h : hyper) (text : list string)
    (w w' : string) :
  w ∈ kept_words h text → w' ∈ text → w' ∉ kept_words h text →
  (occurrences w' text ≤ occurrences w text)%Z.
Proof.
  intros Hw Hw' Hout. apply kept_words_counts in Hw.
  assert (Hc : (w', occurrences w' text) ∈ sort_desc (Counter text)).
  { rewrite sort_desc_perm. by apply elem_of_Counter. }
  unfold kept_words, most_common in *.
  rewrite <- (take_drop (MAX_VOCAB_SIZE h - 1) (sort_desc (Counter text)))
    in Hc.
  apply elem_of_app in Hc as [Hc|Hc].
  - exfalso. apply Hout. by apply (list_elem_of_fmap_2 fst) in Hc.
  - apply (sorted_app_le _ _ (w, occurrences w text)
             (w', occurrences w' text)
             ltac:(rewrite take_drop; apply sort_desc_sorted) Hw Hc).
Qed.

Lemma kept_words_most_frequent_witness :
  ("a" ∈ kept_words (Hyper 2 1 2 3 128 100) ["x"; "b"; "a"; "b"; "c"; "a"]
   ∧ "x" ∈ ["x"; "b"; "a"; "b"; "c"; "a"]
   ∧ "x" ∉ kept_words (Hyper 2 1 2 3 128 100)
             ["x"; "b"; "a"; "b"; "c"; "a"])
  ∧ (occurrences "x" ["x"; "b"; "a"; "b"; "c"; "a"]
     ≤ occurrences "a" ["x"; "b"; "a"; "b"; "c"; "a"])%Z.
Proof.
  assert (H1 : "a" ∈ kept_words (Hyper 2 1 2 3 128 100)
                       ["x"; "b"; "a"; "b"; "c"; "a"])
    by decide_by_compute.
  assert (H2 : "x" ∈ ["x"; "b"; "a"; "b"; "c"; "a"]) by decide_by_compute.
  assert (H3 : "x" ∉ kept_words (Hyper 2 1 2 3 128 100)
                       ["x"; "b"; "a"; "b"; "c"; "a"])
    by decide_by_compute.
  split; [exact (conj H1 (conj H2 H3))|].
  exact (kept_words_most_frequent _ _ _ _ H1 H2 H3).
Defined.

(** ** The vocabulary tables *)

(** X4: [idx2word] has no repeated word, and [word2idx] is its inverse:
    [word2idx[w] = i] exactly when [i] is an index below [vocab_size]
    with [idx2word[i] = w]. *)
Theorem vocabulary_bijection {F : Type} `{Scalar F} (h : hyper)
    (file : string) :
  let p := text_preprocess (F:=F) h file in
  NoDup (idx2word p)
  ∧ ∀ w i, word2idx p !! w = Some i ↔
           (0 ≤ i < Z.of_nat (vocab_size p))%Z
           ∧ idx2word p !! Z.to_nat i = Some w.
Proof.
  split; [apply NoDup_keys_vocab_of|].
  intros w i. apply word2idx_contiguous.
Qed.

Lemma elem_of_keys_dict_set k v (d : odict) : k ∈ keys (dict_set k v d).
Proof.
  rewrite keys_dict_set. case_decide; [done|].
  apply elem_of_app. right. left.
Qed.

(** X5: the vocabulary is never empty and never larger than the cap
    (one entry when the cap is 0 or 1); the bucket word is always in it,
    and the count and frequency arrays have one entry per index. *)
Theorem vocabulary_sizes {F : Type} `{Scalar F} (h : hyper) (file : string) :
  let p := text_preprocess (F:=F) h file in
  1 ≤ vocab_size p ≤ Nat.max 1 (MAX_VOCAB_SIZE h)
  ∧ UNK ∈ idx2word p
  ∧ length (word_counts p) = vocab_size p
  ∧ length (word_freqs p) = vocab_size p.
Proof.
  cbn zeta. split_and!.
  - apply vocab_size_bounds.
  - apply vocab_size_bounds.
  - apply elem_of_keys_dict_set.
  - unfold text_preprocess. cbn. unfold keys, values.
    by rewrite !length_fmap.
  - unfold text_preprocess. cbn. unfold keys, values.
    by rewrite !length_fmap.
Qed.

(** ** The bucket count *)

Lemma filter_length_split {A} (P : A → Prop) `{∀ x, Decision (P x)}
    (l : list A) :
  length l = length (filter P l) + length (filter (λ x, ¬ P x) l).
Proof.
  induction l as [|x l IH]; [done|].
  rewrite !filter_cons. destruct (decide (P x)) as [HP|HP].
  - rewrite decide_False by auto. cbn. lia.
  - rewrite decide_True by auto. cbn. lia.
Qed.

Lemma filter_length_cons_fresh (w : string) (ws text : list string) :
  w ∉ ws →
  length (filter (λ t, t ∈ w :: ws) text)
  = length (filter (λ t, t = w) text) + length (filter (λ t, t ∈ ws) text).
Proof.
  intros Hw. induction text as [|t text IH]; [done|].
  rewrite !filter_cons. destruct (decide (t = w)) as [->|Hne].
  - rewrite decide_True by left. rewrite (decide_False (P := w ∈ ws)) by done.
    cbn. lia.
  - destruct (decide (t ∈ ws)) as [Hin|Hin].
    + rewrite decide_True by (by right). cbn. lia.
    + rewrite decide_False; [done|].
      intros [?|?]%elem_of_cons; done.
Qed.

Lemma filter_elem_of_nil (text : list string) :
  filter (λ t, t ∈ @nil string) text = [].
Proof.
  induction text as [|t text IH]; [done|].
  rewrite filter_cons, decide_False; [done | apply not_elem_of_nil].
Qed.

Lemma sum_counts_kept (d : odict) (text : list string) :
  NoDup (keys d) → (∀ kv, kv ∈ d → kv.2 = occurrences kv.1 text) →
  sumZ (values d) = Z.of_nat (length (filter (λ t, t ∈ keys d) text)).
Proof.
  induction d as [|[w c] d IH]; intros Hnd Hocc.
  - cbn [keys values fmap list_fmap sumZ fold_right].
    by rewrite filter_elem_of_nil.
  - cbn [keys values fmap list_fmap fst snd sumZ fold_right] in *.
    apply NoDup_cons in Hnd as [Hw Hnd].
    rewrite filter_length_cons_fresh by done.
    fold (sumZ d.*2). unfold keys, values in IH. rewrite IH; [|done|].
    + pose proof (Hocc (w, c) ltac:(left)) as Hc. cbn [fst snd] in Hc.
      rewrite Hc. unfold occurrences. lia.
    + intros kv Hkv. apply Hocc. by right.
Qed.

Lemma elem_of_dict_set k v (d : odict) kv :
  kv ∈ dict_set k v d → kv = (k, v) ∨ kv ∈ d.
Proof.
  induction d as [|[k' v'] d IH]; cbn [dict_set].
  - intros ->%list_elem_of_singleton. by left.
  - destruct (String.eqb_spec k' k) as [->|Hne].
    + intros [->|Hin]%elem_of_cons; [by left|]. right. by right.
    + intros [->|Hin]%elem_of_cons; [right; left|].
      destruct (IH Hin) as [->|Hd]; [by left|]. right. by right.
Qed.

Lemma dict_set_elem k v (d : odict) : (k, v) ∈ dict_set k v d.
Proof.
  induction d as [|[k' v'] d IH]; cbn [dict_set]; [left|].
  destruct (String.eqb_spec k' k) as [->|Hne]; [left | by right].
Qed.

Lemma kept_counts_are_occurrences h text kv :
  kv ∈ most_common (MAX_VOCAB_SIZE h - 1) (Counter text) →
  kv.1 ∈ text ∧ kv.2 = occurrences kv.1 text.
Proof. intros Hin%most_common_subseteq. by apply elem_of_Counter. Qed.

Lemma bucket_count h text :
  (Z.of_nat (length text)
   - sumZ (values (most_common (MAX_VOCAB_SIZE h - 1) (Counter text))))%Z
  = Z.of_nat (length (filter (λ t, t ∉ kept_words h text) text)).
Proof.
  rewrite (sum_counts_kept _ text).
  - rewrite (filter_length_split (λ t, t ∈ kept_words h text) text).
    unfold kept_words. lia.
  - apply NoDup_keys_most_common, NoDup_keys_Counter.
  - intros kv Hkv. by apply kept_counts_are_occurrences in Hkv as [_ ?].
Qed.

(** X6: the count stored under ["<unk>"] is the number of tokens whose
    word is not kept; no count of the vocabulary is negative, and every
    other entry holds the number of occurrences of its word. *)
Theorem bucket_counts_left_out_tokens (h : hyper) (text : list string) :
  (UNK, Z.of_nat (length (filter (λ t, t ∉ kept_words h text) text)))
    ∈ vocab_of h text
  ∧ Forall (λ kv, (0 ≤ kv.2)%Z) (vocab_of h text)
  ∧ ∀ w c, (w, c) ∈ vocab_of h text → w ≠ UNK → c = occurrences w text.
Proof.
  unfold vocab_of. rewrite bucket_count. split_and!.
  - apply dict_set_elem.
  - apply Forall_forall. intros kv [->|Hin]%elem_of_dict_set; [cbn; lia|].
    apply kept_counts_are_occurrences in Hin as [_ ->].
    unfold occurrences. lia.
  - intros w c [Heq|Hin]%elem_of_dict_set Hne; [congruence|].
    apply kept_counts_are_occurrences in Hin as [_ Hc]. exact Hc.
Qed.

(** X7: when no kept word is spelled ["<unk>"], [vocab] is the kept
    words in descending order of count followed by the bucket, and its
    counts add up to the number of tokens. *)
Theorem vocab_layout_without_collision (h : hyper) (text : list string) :
  UNK ∉ kept_words h text →
  vocab_of h text
  = most_common (MAX_VOCAB_SIZE h - 1) (Counter text)
    ++ [(UNK, Z.of_nat (length (filter (λ t, t ∉ kept_words h text) text)))]
  ∧ sumZ (values (vocab_of h text)) = Z.of_nat (length text).
Proof.
  intros Hfresh. split.
  - unfold vocab_of. rewrite bucket_count. by apply dict_set_fresh.
  - by apply vocab_counts_sum_fresh.
Qed.

Lemma vocab_layout_without_collision_witness :
  (UNK ∉ kept_words notebook abc_tokens)
  ∧ vocab_of notebook abc_tokens
    = most_common (MAX_VOCAB_SIZE notebook - 1) (Counter abc_tokens)
      ++ [(UNK, Z.of_nat (length (filter
                 (λ t, t ∉ kept_words notebook abc_tokens) abc_tokens)))]
  ∧ sumZ (values (vocab_of notebook abc_tokens))
    = Z.of_nat (length abc_tokens).
Proof.
  assert (H1 : UNK ∉ kept_words notebook abc_tokens) by decide_by_compute.
  split; [exact H1|].
  exact (vocab_layout_without_collision notebook abc_tokens H1).
Defined.

(** X8: when no kept word is spelled ["<unk>"], the bucket has the last
    index, and that is the index [WordEmbeddingDataset] gives to every
    token outside the vocabulary. *)
Theorem bucket_is_last_without_collision {F : Type} `{Scalar F} (h : hyper)
    (file : string) :
  let p := text_preprocess (F:=F) h file in
  UNK ∉ kept_words h (text p) →
  idx2word p !! (vocab_size p - 1) = Some UNK
  ∧ word2idx p !! UNK = Some (Z.of_nat (vocab_size p) - 1)%Z
  ∧ ∀ t, t ∉ idx2word p →
      Some (default (Z.of_nat (vocab_size p) - 1)%Z (word2idx p !! t))
      = word2idx p !! UNK.
Proof.
  intros p Hfresh.
  destruct (unk_last_index h file Hfresh) as [Hlast Hunk].
  split_and!; [done | done |].
  intros t Ht. apply (word2idx_None h file) in Ht.
  fold p in Ht. rewrite Ht. cbn [default]. symmetry. exact Hunk.
Qed.

Lemma bucket_is_last_without_collision_witness :
  (UNK ∉ kept_words notebook (text abc_preprocessed))
  ∧ idx2word abc_preprocessed !! (vocab_size abc_preprocessed - 1) = Some UNK
  ∧ word2idx abc_preprocessed !! UNK
    = Some (Z.of_nat (vocab_size abc_preprocessed) - 1)%Z
  ∧ ∀ t, t ∉ idx2word abc_preprocessed →
      Some (default (Z.of_nat (vocab_size abc_preprocessed) - 1)%Z
              (word2idx abc_preprocessed !! t))
      = word2idx abc_preprocessed !! UNK.
Proof.
  assert (H1 : UNK ∉ kept_words notebook (text abc_preprocessed))
    by decide_by_compute.
  split; [exact H1|].
  exact (bucket_is_last_without_collision notebook "a b c a b c a b c" H1).
Defined.

(** ** The encoded corpus *)

(** X9: with a cap of at most 2^24 words the dataset holds one index per
    token, each below [vocab_size]; a token of the vocabulary is encoded
    as the index that [idx2word] maps back to it, any other token as
    [vocab_size - 1]. *)
Theorem text_encoded_round_trip {F : Type} `{Scalar F} (h : hyper)
    (file : string) :
  (Z.of_nat (MAX_VOCAB_SIZE h) ≤ 2 ^ 24)%Z →
  let p := text_preprocess (F:=F) h file in
  let ds := notebook_dataset (F:=F) h file in
  dataset_len ds = length (text p)
  ∧ ∀ j t, text p !! j = Some t →
      ∃ i, text_encoded ds !! j = Some i
        ∧ (0 ≤ i < Z.of_nat (vocab_size p))%Z
        ∧ (t ∈ idx2word p → idx2word p !! Z.to_nat i = Some t)
        ∧ (t ∉ idx2word p → i = (Z.of_nat (vocab_size p) - 1)%Z).
Proof.
  intros Hcap p ds. split.
  - unfold dataset_len, ds, notebook_dataset, dataset_init.
    cbn [text_encoded]. by rewrite !length_fmap.
  - intros j t Ht.
    pose proof (vocab_size_bounds (F:=F) h file) as Hb. fold p in Hb.
    destruct (word2idx p !! t) as [i|] eqn:Hi.
    + pose proof (proj1 (word2idx_contiguous h file t i) Hi) as [Hr Hw].
      fold p in Hr, Hw. exists i. split_and!; [|lia|lia|done|].
      * unfold ds, notebook_dataset, dataset_init. cbn [text_encoded].
        fold p. rewrite !list_lookup_fmap, Ht.
        cbn [fmap option_fmap option_map]. rewrite Hi. cbn [default].
        f_equal. unfold f32_of_int.
        unfold id. rewrite (proj2 (Z.leb_le _ _)); [done | lia].
      * intros Hnot. apply (word2idx_None h file) in Hnot.
        fold p in Hnot. congruence.
    + exists (Z.of_nat (vocab_size p) - 1)%Z. split_and!; [|lia|lia| |done].
      * exact (absent_token_encoded_last h file j t Hcap Ht Hi).
      * intros Hin. apply (word2idx_None h file) in Hi. by fold p in Hi.
Qed.

Lemma text_encoded_round_trip_witness :
  (Z.of_nat (MAX_VOCAB_SIZE notebook) ≤ 2 ^ 24)%Z
  ∧ dataset_len abc_dataset = length (text abc_preprocessed)
  ∧ ∀ j t, text abc_preprocessed !! j = Some t →
      ∃ i, text_encoded abc_dataset !! j = Some i
        ∧ (0 ≤ i < Z.of_nat (vocab_size abc_preprocessed))%Z
        ∧ (t ∈ idx2word abc_preprocessed →
           idx2word abc_preprocessed !! Z.to_nat i = Some t)
        ∧ (t ∉ idx2word abc_preprocessed →
           i = (Z.of_nat (vocab_size abc_preprocessed) - 1)%Z).
Proof.
  assert (H1 : (Z.of_nat (MAX_VOCAB_SIZE notebook) ≤ 2 ^ 24)%Z)
    by (vm_compute; discriminate).
  split; [exact H1|].
  exact (text_encoded_round_trip notebook "a b c a b c a b c" H1).
Defined.

(** ** Positions given to [__getitem__] *)

Lemma mapM_fmap_ext {A A' B} (f : A → result B) (f' : A' → result B)
    (g : A' → A) (l : list A') :
  (∀ x, f (g x) = f' x) → mapM f (g <$> l) = mapM f' l.
Proof.
  intros Hfg. induction l as [|x l IH]; [done|].
  cbn [fmap list_fmap mapM]. fold (g <$> l). by rewrite Hfg, IH.
Qed.

Lemma range_shift (a b n : Z) :
  range (a + n) (b + n) = (λ x, (x + n)%Z) <$> range a b.
Proof.
  unfold range. rewrite <- list_fmap_compose.
  replace (b + n - (a + n))%Z with (b - a)%Z by lia.
  apply list_fmap_ext. intros k. cbn. lia.
Qed.

Lemma elem_of_range (a b x : Z) : x ∈ range a b ↔ (a ≤ x < b)%Z.
Proof.
  unfold range. rewrite list_elem_of_fmap. split.
  - intros (k & -> & Hk). apply elem_of_seq in Hk. lia.
  - intros Hx. exists (Z.to_nat (x - a)). split; [lia|].
    apply elem_of_seq. lia.
Qed.

Lemma NoDup_range (a b : Z) : NoDup (range a b).
Proof.
  unfold range. apply NoDup_fmap_2_strong; [|apply NoDup_seq].
  intros x y _ _ Heq. cbn beta in Heq. lia.
Qed.

Lemma mod_window_inj (n x y : Z) :
  (0 < n)%Z → (Z.abs (x - y) < n)%Z → (x mod n = y mod n)%Z → x = y.
Proof.
  intros Hn Hxy Hmod.
  pose proof (Z.div_mod x n ltac:(lia)) as Hx.
  pose proof (Z.div_mod y n ltac:(lia)) as Hy.
  rewrite Hmod in Hx.
  assert (Hd : (x - y = n * (x / n - y / n))%Z)
    by (rewrite Z.mul_sub_distr_l; lia).
  destruct (Z.eq_dec (x / n)%Z (y / n)%Z) as [Heq|Hne].
  - rewrite Heq, Z.sub_diag, Z.mul_0_r in Hd. lia.
  - exfalso. revert Hd Hne. generalize (x / n)%Z (y / n)%Z.
    intros qx qy Hd Hne. nia.
Qed.

(** X10: a negative position in [-len, 0) addresses the corpus from its
    end: [__getitem__] returns what it returns at [idx + len], with the
    same random draws. *)
Theorem getitem_negative_index {F : Type} `{Sampler F} (h : hyper)
    (ds : WordEmbeddingDataset F) (idx : Z) (s : rng) :
  (- Z.of_nat (dataset_len ds) ≤ idx < 0)%Z →
  getitem h ds idx s = getitem h ds (idx + Z.of_nat (dataset_len ds)) s.
Proof.
  intros Hidx. unfold dataset_len in *. unfold getitem.
  set (l := text_encoded ds) in *. set (n := Z.of_nat (length l)) in *.
  assert (Hc : py_index l idx = py_index l (idx + n)%Z).
  { unfold py_index. cbv zeta. fold n.
    destruct (Z.ltb_spec idx 0) as [_|?]; [|lia].
    destruct (Z.ltb_spec (idx + n) 0) as [?|_]; [lia|].
    destruct (Z.ltb_spec (idx + n) 0) as [?|_]; [lia | done]. }
  assert (Hp : pos_indices h (length l) idx
               = pos_indices h (length l) (idx + n)%Z).
  { unfold pos_indices. fold n.
    replace (idx + n - Z.of_nat (C h))%Z with (idx - Z.of_nat (C h) + n)%Z
      by lia.
    replace (idx + n + 1)%Z with (idx + 1 + n)%Z by lia.
    replace (idx + n + Z.of_nat (C h) + 1)%Z
      with (idx + Z.of_nat (C h) + 1 + n)%Z by lia.
    rewrite !range_shift, <- fmap_app. symmetry. apply mapM_fmap_ext.
    intros x. unfold py_mod.
    destruct (Z.eqb_spec n 0) as [?|Hn]; [done|].
    f_equal. rewrite <- (Z.mul_1_l n) at 1. by apply Z.mod_add. }
  by rewrite Hc, Hp.
Qed.

Lemma getitem_negative_index_witness :
  (- Z.of_nat (dataset_len abc_dataset) ≤ -1 < 0)%Z
  ∧ getitem notebook abc_dataset (-1) (0 : rng)
    = getitem notebook abc_dataset
        (-1 + Z.of_nat (dataset_len abc_dataset)) (0 : rng).
Proof.
  assert (H1 : (- Z.of_nat (dataset_len abc_dataset) ≤ -1 < 0)%Z)
    by (vm_compute; split; [discriminate | reflexivity]).
  split; [exact H1|].
  exact (getitem_negative_index notebook abc_dataset (-1) (0 : rng) H1).
Defined.

(** X11: a position at or beyond the corpus length, or below [-len],
    makes [__getitem__] raise [IndexError] before any sample is drawn;
    on an empty corpus every position does. *)
Theorem getitem_out_of_range {F : Type} `{Sampler F} (h : hyper)
    (ds : WordEmbeddingDataset F) (idx : Z) (s : rng) :
  (Z.of_nat (dataset_len ds) ≤ idx ∨ idx < - Z.of_nat (dataset_len ds))%Z →
  getitem h ds idx s = Raise (IndexError "index out of range").
Proof.
  intros Hidx. unfold dataset_len in *. unfold getitem, py_index.
  set (l := text_encoded ds) in *.
  destruct (Z.ltb_spec idx 0) as [Hneg|Hpos].
  - destruct (Z.ltb_spec (idx + Z.of_nat (length l)) 0) as [_|?]; [done|lia].
  - destruct (Z.ltb_spec idx 0) as [?|_]; [lia|].
    rewrite (lookup_ge_None_2 l (Z.to_nat idx)) by lia. done.
Qed.

Lemma getitem_out_of_range_witness :
  (Z.of_nat (dataset_len abc_dataset) ≤ 9
   ∨ 9 < - Z.of_nat (dataset_len abc_dataset))%Z
  ∧ getitem notebook abc_dataset 9 (0 : rng)
    = Raise (IndexError "index out of range").
Proof.
  assert (H1 : (Z.of_nat (dataset_len abc_dataset) ≤ 9
                ∨ 9 < - Z.of_nat (dataset_len abc_dataset))%Z)
    by (left; vm_compute; discriminate).
  split; [exact H1|].
  exact (getitem_out_of_range notebook abc_dataset 9 (0 : rng) H1).
Defined.

(** ** The context window *)

Lemma elem_of_window (c idx x : Z) :
  x ∈ range (idx - c) idx ++ range (idx + 1) (idx + c + 1) ↔
  (idx - c ≤ x ≤ idx + c)%Z ∧ x ≠ idx.
Proof. rewrite elem_of_app, !elem_of_range. lia. Qed.

Lemma NoDup_window (c idx : Z) :
  NoDup (range (idx - c) idx ++ range (idx + 1) (idx + c + 1)).
Proof.
  apply NoDup_app. split_and!; [apply NoDup_range| |apply NoDup_range].
  intros x. rewrite !elem_of_range. lia.
Qed.

(** X12: when the corpus is longer than the window ([2*C < len]), the
    [2*C] context positions are pairwise different and none of them is
    the center position. *)
Theorem context_positions_distinct (h : hyper) (len : nat) (idx : Z) :
  (0 ≤ idx < Z.of_nat len)%Z → 2 * C h < len →
  ∃ ps, pos_indices h len idx = Ok ps ∧ NoDup ps ∧ idx ∉ ps.
Proof.
  intros Hidx Hlen. rewrite pos_indices_Ok by lia.
  eexists. split; [done|]. split.
  - apply NoDup_fmap_2_strong; [|apply NoDup_window].
    intros x y [Hx _]%elem_of_window [Hy _]%elem_of_window.
    apply mod_window_inj; lia.
  - intros (x & Hmod & [Hx Hne]%elem_of_window)%list_elem_of_fmap.
    apply Hne. symmetry. apply (mod_window_inj (Z.of_nat len)); [lia|lia|].
    rewrite <- Hmod. apply Z.mod_small. lia.
Qed.

Lemma context_positions_distinct_witness :
  ((0 ≤ 0 < Z.of_nat 10)%Z ∧ 2 * C notebook < 10)
  ∧ ∃ ps, pos_indices notebook 10 0 = Ok ps ∧ NoDup ps ∧ 0%Z ∉ ps.
Proof.
  assert (H1 : (0 ≤ 0 < Z.of_nat 10)%Z) by (cbn; lia).
  assert (H2 : 2 * C notebook < 10) by (cbn; lia).
  split; [exact (conj H1 H2)|].
  exact (context_positions_distinct notebook 10 0 H1 H2).
Defined.

(** X13: in a corpus no longer than the radius the window wraps onto
    the center: the center position is one of its own context
    positions. *)
Theorem short_corpus_window_holds_center (h : hyper) (len : nat) (idx : Z) :
  (0 ≤ idx < Z.of_nat len)%Z → len ≤ C h →
  ∃ ps, pos_indices h len idx = Ok ps ∧ idx ∈ ps.
Proof.
  intros Hidx Hlen. rewrite pos_indices_Ok by lia.
  eexists. split; [done|].
  apply list_elem_of_fmap. exists (idx + Z.of_nat len)%Z. split.
  - rewrite <- (Z.mul_1_l (Z.of_nat len)) at 1.
    rewrite Z.mod_add by lia. symmetry. apply Z.mod_small. lia.
  - apply elem_of_window. lia.
Qed.

Lemma short_corpus_window_holds_center_witness :
  ((0 ≤ 1 < Z.of_nat 2)%Z ∧ 2 ≤ C notebook)
  ∧ ∃ ps, pos_indices notebook 2 1 = Ok ps ∧ 1%Z ∈ ps.
Proof.
  assert (H1 : (0 ≤ 1 < Z.of_nat 2)%Z) by (cbn; lia).
  assert (H2 : 2 ≤ C notebook) by (cbn; lia).
  split; [exact (conj H1 H2)|].
  exact (short_corpus_window_holds_center notebook 2 1 H1 H2).
Defined.

(** ** The model tables *)

Lemma init_table_rows {F} (V D : nat) (init : nat → nat → F) :
  Forall (λ r, length r = D) ((λ i, init i <$> seq 0 D) <$> seq 0 V).
Proof.
  apply Forall_fmap, Forall_forall. intros i _. cbn.
  by rewrite length_fmap, length_seq.
Qed.

Lemma Embedding_init_wf `{Scalar F} (V D : nat)
    (init_in init_out : nat → nat → F) :
  wf_model {| in_embed := Embedding_init V D init_in;
              out_embed := Embedding_init V D init_out |}.
Proof. split_and!; [done | apply init_table_rows | apply init_table_rows]. Qed.

Lemma EmbeddingModel_init_Ok `{Scalar F} (V D : nat)
    (init_in init_out : nat → nat → F) :
  0 < D →
  EmbeddingModel_init V D init_in init_out
  = Ok {| in_embed := Embedding_init V D init_in;
          out_embed := Embedding_init V D init_out |}.
Proof.
  intros HD. unfold EmbeddingModel_init.
  by destruct (Nat.eqb_spec D 0) as [?|_]; [lia|].
Qed.

(** X14: [EmbeddingModel(vocab_size, embed_size)] raises
    [ZeroDivisionError] for an embedding size of 0; for any other size
    it returns a model with two tables of [vocab_size] rows, every row
    with [embed_size] entries, the shape [forward] relies on. *)
Theorem EmbeddingModel_init_shapes {F : Type} `{Scalar F} (V D : nat)
    (init_in init_out : nat → nat → F) :
  (D = 0 → EmbeddingModel_init V D init_in init_out = Raise ZeroDivisionError)
  ∧ (D ≠ 0 →
     ∃ m, EmbeddingModel_init V D init_in init_out = Ok m
       ∧ wf_model m
       ∧ length (input_embeddings m) = V
       ∧ length (weight (out_embed m)) = V
       ∧ embedding_dim (in_embed m) = D
       ∧ embedding_dim (out_embed m) = D).
Proof.
  split.
  - by intros ->.
  - intros HD. eexists. split; [apply EmbeddingModel_init_Ok; lia|].
    split_and!; [apply Embedding_init_wf| | |done|done].
    + unfold input_embeddings. cbn. by rewrite length_fmap, length_seq.
    + cbn. by rewrite length_fmap, length_seq.
Qed.

(** ** The loss on whole batches *)

(** X15: for a batch of at least two examples whose windows hold more
    than one word and whose indices the tables hold, [forward] returns a
    vector with one entry per example, the entry of an example being
    minus the sum of its summed log-sigmoid scores. *)
Theorem forward_returns_example_losses {F : Type} `{Scalar F}
    (m : EmbeddingModel F) (P N : nat) (exs : list example) :
  wf_model m → Forall (example_in_range m P N) exs →
  2 ≤ length exs → P ≠ 1 → N ≠ 1 →
  forward m (collate exs)
  = Ok (Tensor [length exs] (example_loss m <$> exs)).
Proof.
  intros Hwf Hexs Hlen HP HN.
  apply (forward_losses m P N exs Hwf Hexs); [|lia|done|done].
  intros ->. cbn in Hlen. lia.
Qed.

Lemma tiny_model_wf : wf_model tiny_model.
Proof. apply Embedding_init_wf. Qed.

Lemma tiny_examples_in_range :
  Forall (example_in_range tiny_model 2 3) tiny_examples.
Proof.
  unfold tiny_examples, example_in_range, in_range. cbn.
  repeat first [apply Forall_nil | apply Forall_cons | split];
    vm_compute; first [reflexivity | discriminate].
Qed.

Lemma forward_returns_example_losses_witness :
  (wf_model tiny_model
   ∧ Forall (example_in_range tiny_model 2 3) tiny_examples
   ∧ 2 ≤ length tiny_examples ∧ 2 ≠ 1 ∧ 3 ≠ 1)
  ∧ forward tiny_model (collate tiny_examples)
    = Ok (Tensor [length tiny_examples]
            (example_loss tiny_model <$> tiny_examples)).
Proof.
  assert (H3 : 2 ≤ length tiny_examples) by (cbn; lia).
  assert (H4 : 2 ≠ 1) by lia.
  assert (H5 : 3 ≠ 1) by lia.
  split; [exact (conj tiny_model_wf (conj tiny_examples_in_range
                   (conj H3 (conj H4 H5))))|].
  exact (forward_returns_example_losses tiny_model 2 3 tiny_examples
           tiny_model_wf tiny_examples_in_range H3 H4 H5).
Defined.

(** X16: on every batch of a single example [forward] raises
    [IndexError] at [sum(1)], whatever the window sizes. *)
Theorem forward_single_example_raises {F : Type} `{Scalar F}
    (m : EmbeddingModel F) (e : example) :
  wf_model m →
  example_in_range m (length (pos_words e)) (length (neg_words e)) e →
  forward m (collate [e])
  = Raise (IndexError
      "Dimension out of range (expected to be in range of [-1, 0], but got 1)").
Proof. apply forward_batch_of_one. Qed.

Lemma tiny_example_in_range :
  example_in_range tiny_model 2 3 (Example_ 0 [1; 2]%Z [0; 0; 1]%Z).
Proof.
  unfold example_in_range, in_range. cbn.
  repeat first [apply Forall_nil | apply Forall_cons | split];
    vm_compute; first [reflexivity | discriminate].
Qed.

Lemma forward_single_example_raises_witness :
  (wf_model tiny_model
   ∧ example_in_range tiny_model 2 3 (Example_ 0 [1; 2]%Z [0; 0; 1]%Z))
  ∧ forward tiny_model (collate [Example_ 0 [1; 2]%Z [0; 0; 1]%Z])
    = Raise (IndexError
        "Dimension out of range (expected to be in range of [-1, 0], but got 1)").
Proof.
  split; [exact (conj tiny_model_wf tiny_example_in_range)|].
  exact (forward_single_example_raises tiny_model
           (Example_ 0 [1; 2]%Z [0; 0; 1]%Z)
           tiny_model_wf tiny_example_in_range).
Defined.

Lemma mapM_Ok_inv {A B} (f : A → result B) (l : list A) ys :
  mapM f l = Ok ys → ∀ x, x ∈ l → ∃ y, f x = Ok y.
Proof.
  revert ys. induction l as [|x l IH]; intros ys Hm z Hz;
    [by apply elem_of_nil in Hz|].
  cbn [mapM] in Hm. destruct (f x) as [y|] eqn:Hx; [|done].
  cbn in Hm. destruct (mapM f l) as [ys'|] eqn:Hl; [|done].
  apply elem_of_cons in Hz as [->|Hz]; [by eexists|]. by eapply IH.
Qed.

Lemma embedding_Ok_inv `{Scalar F} (e : Embedding F) ix t :
  embedding e ix = Ok t → ∀ i, i ∈ data ix → in_range e i.
Proof.
  unfold embedding. destruct (mapM _ _) as [rows|] eqn:Hm; [|done].
  intros _ i Hi. destruct (mapM_Ok_inv _ _ _ Hm i Hi) as [r Hr].
  unfold embedding_row in Hr. unfold in_range.
  destruct (Z.ltb_spec i 0); [done|].
  destruct (weight e !! Z.to_nat i) eqn:Hw; [|done].
  apply lookup_lt_Some in Hw. lia.
Qed.

(** X17: when a center label lies outside the input table, or a context
    or negative label outside the output table, [forward] raises
    [IndexError] and computes no loss. *)
Theorem forward_label_out_of_range {F : Type} `{Scalar F}
    (m : EmbeddingModel F) (b : batch) :
  shape (input_labels b) ≠ [] →
  (∃ i, i ∈ data (input_labels b) ∧ ¬ in_range (in_embed m) i)
  ∨ (∃ i, (i ∈ data (pos_labels b) ∨ i ∈ data (neg_labels b))
          ∧ ¬ in_range (out_embed m) i) →
  forward m b = Raise (IndexError "index out of range in self").
Proof.
  intros Hshape Hbad. unfold forward.
  destruct (shape (input_labels b)) as [|d0 sh] eqn:Hs; [done|].
  unfold size0. rewrite Hs. cbn [mbind result_bind].
  destruct (embedding (in_embed m) _) as [ie|e1] eqn:Hie; cbn;
    [|by rewrite (embedding_Raise _ _ _ Hie)].
  destruct (embedding (out_embed m) (pos_labels b)) as [pe|e2] eqn:Hpe; cbn;
    [|by rewrite (embedding_Raise _ _ _ Hpe)].
  destruct (embedding (out_embed m) (neg_labels b)) as [ne|e3] eqn:Hne; cbn;
    [|by rewrite (embedding_Raise _ _ _ Hne)].
  exfalso. destruct Hbad as [(i & Hi & Hout)|(i & [Hi|Hi] & Hout)];
    apply Hout;
    [ exact (embedding_Ok_inv _ _ _ Hie i Hi)
    | exact (embedding_Ok_inv _ _ _ Hpe i Hi)
    | exact (embedding_Ok_inv _ _ _ Hne i Hi) ].
Qed.

Lemma forward_label_out_of_range_witness :
  (shape (input_labels (collate [Example_ 7 [1; 2]%Z [0; 0; 1]%Z;
                                 Example_ 0 [1; 2]%Z [0; 0; 1]%Z])) ≠ []
   ∧ ((∃ i, i ∈ data (input_labels
                 (collate [Example_ 7 [1; 2]%Z [0; 0; 1]%Z;
                           Example_ 0 [1; 2]%Z [0; 0; 1]%Z]))
            ∧ ¬ in_range (in_embed tiny_model) i)
      ∨ (∃ i, (i ∈ data (pos_labels
                   (collate [Example_ 7 [1; 2]%Z [0; 0; 1]%Z;
                             Example_ 0 [1; 2]%Z [0; 0; 1]%Z]))
               ∨ i ∈ data (neg_labels
                   (collate [Example_ 7 [1; 2]%Z [0; 0; 1]%Z;
                             Example_ 0 [1; 2]%Z [0; 0; 1]%Z])))
              ∧ ¬ in_range (out_embed tiny_model) i)))
  ∧ forward tiny_model (collate [Example_ 7 [1; 2]%Z [0; 0; 1]%Z;
                                 Example_ 0 [1; 2]%Z [0; 0; 1]%Z])
    = Raise (IndexError "index out of range in self").
Proof.
  set (b := collate [Example_ 7 [1; 2]%Z [0; 0; 1]%Z;
                     Example_ 0 [1; 2]%Z [0; 0; 1]%Z]).
  assert (H1 : shape (input_labels b) ≠ []) by (cbn; discriminate).
  assert (H2 : (∃ i, i ∈ data (input_labels b)
                     ∧ ¬ in_range (in_embed tiny_model) i)
               ∨ (∃ i, (i ∈ data (pos_labels b) ∨ i ∈ data (neg_labels b))
                       ∧ ¬ in_range (out_embed tiny_model) i)).
  { left. exists 7%Z. split; [cbn; left|].
    unfold in_range. vm_compute. intros [_ Hlt]. discriminate. }
  split; [exact (conj H1 H2)|].
  exact (forward_label_out_of_range tiny_model b H1 H2).
Defined.

(** ** The helpers once their names are bound *)

Lemma pets_indices_in_range word i :
  word2idx pets !! word = Some i →
  (0 ≤ i < Z.of_nat (length pets_weights))%Z.
Proof.
  intros Hi.
  apply (word2idx_contiguous (F:=sym) notebook "tiger cat tiger monster")
    in Hi as [Hr _].
  exact Hr.
Qed.

(** X18: in an environment where [word_to_idx] is the vocabulary and
    every index has a row in [embedding_weights], [evaluate] drops the
    pairs with a word outside the vocabulary and returns the Spearman
    correlation between the human scores and the cosine similarities of
    the remaining pairs, in file order. *)
Theorem evaluate_correlates_known_pairs {F : Type} `{Stats F}
    (read_csv : string → string → result (list (row F)))
    (g : gmap string (value F)) (d : gmap string Z) (w : list (list F))
    (filename : string) (rows : list (row F)) :
  g !! "word_to_idx" = Some (VDict d) →
  (∀ word i, d !! word = Some i → (0 ≤ i < Z.of_nat (length w))%Z) →
  read_benchmark read_csv filename = Ok rows →
  evaluate read_csv g filename w
  = Ok (spearmanr (snd <$> kept_pairs d rows)
          (model_sim d w <$> kept_pairs d rows)).
Proof. intros Hd Hrange Hread. by apply evaluate_defined. Qed.

Lemma evaluate_correlates_known_pairs_witness :
  (pets_env !! "word_to_idx" = Some (VDict (word2idx pets))
   ∧ (∀ word i, word2idx pets !! word = Some i →
                (0 ≤ i < Z.of_nat (length pets_weights))%Z)
   ∧ read_benchmark bench_fs "men.txt"
     = Ok [("tiger", "cat", SConst 7); ("tiger", "zebra", SConst 3)])
  ∧ evaluate bench_fs pets_env "men.txt" pets_weights
    = Ok (spearmanr
            (snd <$> kept_pairs (word2idx pets)
               [("tiger", "cat", SConst 7); ("tiger", "zebra", SConst 3)])
            (model_sim (word2idx pets) pets_weights
               <$> kept_pairs (word2idx pets)
                     [("tiger", "cat", SConst 7);
                      ("tiger", "zebra", SConst 3)])).
Proof.
  assert (H1 : pets_env !! "word_to_idx" = Some (VDict (word2idx pets)))
    by (vm_compute; reflexivity).
  assert (H3 : read_benchmark bench_fs "men.txt"
               = Ok [("tiger", "cat", SConst 7);
                     ("tiger", "zebra", SConst 3)])
    by (vm_compute; reflexivity).
  split; [exact (conj H1 (conj pets_indices_in_range H3))|].
  exact (evaluate_correlates_known_pairs bench_fs pets_env (word2idx pets)
           pets_weights "men.txt" _ H1 pets_indices_in_range H3).
Defined.

(** X19: with [word_to_idx], [idx_to_word] and [embedding_weights]
    bound, [find_nearest] returns at most ten words: those at the first
    ten indices of the argsort of the cosine distances between every row
    and the row of the query, the query's own row included. *)
Theorem find_nearest_returns_first_ten {F : Type} `{Stats F}
    (g : gmap string (value F)) (d : gmap string Z) (w : list (list F))
    (l : list string) (word : string) (i : Z) :
  g !! "word_to_idx" = Some (VDict d) →
  g !! "embedding_weights" = Some (VArray w) →
  g !! "idx_to_word" = Some (VWords l) →
  d !! word = Some i → (0 ≤ i < Z.of_nat (length w))%Z →
  (∀ j, j ∈ argsort ((λ e, cosine e (row_at w i)) <$> w) →
        (0 ≤ j < Z.of_nat (length l))%Z) →
  ∃ ws, find_nearest g word = Ok ws
    ∧ length ws ≤ 10
    ∧ ws = (λ j, default EmptyString (l !! Z.to_nat j))
             <$> take 10 (argsort ((λ e, cosine e (row_at w i)) <$> w)).
Proof.
  intros Hd Hw Hl Hi Hrange Hsort. eexists. split_and!; [| |done].
  - unfold find_nearest, load_global, dict_get.
    rewrite Hd. cbn [mbind result_bind as_dict].
    rewrite Hi. cbn [mbind result_bind].
    rewrite Hw. cbn [mbind result_bind as_array].
    destruct (lookup_lt_is_Some_2 w (Z.to_nat i)) as [r Hr]; [lia|].
    rewrite (py_index_Ok w i r) by (lia || done). cbn [mbind result_bind].
    unfold row_at. rewrite Hr. cbn [default].
    apply mapM_Ok_fmap.
    intros j (k & Hk & _)%elem_of_take. rewrite Hl.
    cbn [mbind result_bind as_words].
    assert (Hj : (0 ≤ j < Z.of_nat (length l))%Z).
    { apply Hsort. unfold row_at. rewrite Hr. cbn [default].
      by eapply list_elem_of_lookup_2. }
    destruct (lookup_lt_is_Some_2 l (Z.to_nat j)) as [x Hx]; [lia|].
    rewrite Hx. apply py_index_Ok; [lia | done].
  - rewrite length_fmap, length_take. lia.
Qed.

Lemma pets_argsort_in_range j :
  j ∈ argsort ((λ e, cosine e (row_at pets_weights 2)) <$> pets_weights) →
  (0 ≤ j < Z.of_nat (length (idx2word pets)))%Z.
Proof.
  intros Hj. apply list_elem_of_In in Hj. vm_compute in Hj.
  destruct Hj as [<-|[<-|[<-|[<-|[]]]]];
    vm_compute; split; first [reflexivity | discriminate].
Qed.

Lemma find_nearest_returns_first_ten_witness :
  (pets_env !! "word_to_idx" = Some (VDict (word2idx pets))
   ∧ pets_env !! "embedding_weights" = Some (VArray pets_weights)
   ∧ pets_env !! "idx_to_word" = Some (VWords (idx2word pets))
   ∧ word2idx pets !! "monster" = Some 2%Z
   ∧ (0 ≤ 2 < Z.of_nat (length pets_weights))%Z
   ∧ (∀ j, j ∈ argsort ((λ e, cosine e (row_at pets_weights 2))
                          <$> pets_weights) →
           (0 ≤ j < Z.of_nat (length (idx2word pets)))%Z))
  ∧ ∃ ws, find_nearest pets_env "monster" = Ok ws
      ∧ length ws ≤ 10
      ∧ ws = (λ j, default EmptyString (idx2word pets !! Z.to_nat j))
               <$> take 10 (argsort ((λ e, cosine e (row_at pets_weights 2))
                                       <$> pets_weights)).
Proof.
  assert (H1 : pets_env !! "word_to_idx" = Some (VDict (word2idx pets)))
    by (vm_compute; reflexivity).
  assert (H2 : pets_env !! "embedding_weights" = Some (VArray pets_weights))
    by (vm_compute; reflexivity).
  assert (H3 : pets_env !! "idx_to_word" = Some (VWords (idx2word pets)))
    by (vm_compute; reflexivity).
  assert (H4 : word2idx pets !! "monster" = Some 2%Z)
    by (vm_compute; reflexivity).
  assert (H5 : (0 ≤ 2 < Z.of_nat (length pets_weights))%Z)
    by (vm_compute; split; [discriminate | reflexivity]).
  split; [exact (conj H1 (conj H2 (conj H3 (conj H4
                   (conj H5 pets_argsort_in_range)))))|].
  exact (find_nearest_returns_first_ten pets_env (word2idx pets)
           pets_weights (idx2word pets) "monster" 2
           H1 H2 H3 H4 H5 pets_argsort_in_range).
Defined.

(** X20: with [word_to_idx] bound, a query word outside the vocabulary
    makes [find_nearest] raise [KeyError] for that word. *)
Theorem find_nearest_unknown_word {F : Type} `{Stats F}
    (g : gmap string (value F)) (d : gmap string Z) (word : string) :
  g !! "word_to_idx" = Some (VDict d) → d !! word = None →
  find_nearest g word = Raise (KeyError word).
Proof.
  intros Hd Hw. unfold find_nearest, load_global, dict_get.
  rewrite Hd. cbn [mbind result_bind as_dict]. by rewrite Hw.
Qed.

Lemma find_nearest_unknown_word_witness :
  (pets_env !! "word_to_idx" = Some (VDict (word2idx pets))
   ∧ word2idx pets !! "zebra" = None)
  ∧ find_nearest pets_env "zebra" = Raise (KeyError "zebra").
Proof.
  assert (H1 : pets_env !! "word_to_idx" = Some (VDict (word2idx pets)))
    by (vm_compute; reflexivity).
  assert (H2 : word2idx pets !! "zebra" = None) by (vm_compute; reflexivity).
  split; [exact (conj H1 H2)|].
  exact (find_nearest_unknown_word pets_env (word2idx pets) "zebra" H1 H2).
Defined.

(** ** The first turn of the training loop *)

(** X21: on at most one device, when the first batch passes [forward]
    and [simlex-999.txt] has a row, training stops in its first turn
    with the [NameError] that [evaluate] raises for [word_to_idx]. *)
Theorem unwrapped_training_stops_with_NameError {F : Type}
    `{Scalar F} `{Stats F}
    (read_csv : string → string → result (list (row F)))
    (sgd_step : EmbeddingModel F → batch → EmbeddingModel F)
    (parallel_forward : nat → EmbeddingModel F → batch → result (tensor F))
    (h : hyper) (USE_CUDA : bool) (NUM_CUDA : nat) (m0 : EmbeddingModel F)
    (st0 : train_state) (loader : nat → list batch) (b : batch)
    (rest : list batch) (lv : tensor F) (r : row F) (rows : list (row F)) :
  NUM_CUDA ≤ 1 → 0 < EPOCHS h →
  model st0 = setup_model USE_CUDA NUM_CUDA m0 →
  dom (env st0) ⊆ list_to_set notebook_names →
  loader 0 = b :: rest → forward m0 b = Ok lv →
  read_benchmark read_csv "simlex-999.txt" = Ok (r :: rows) →
  train read_csv sgd_step parallel_forward h loader st0
  = Raise (NameError "word_to_idx").
Proof. apply plain_training_stops. Qed.

Lemma unwrapped_training_stops_with_NameError_witness :
  (0 ≤ 1 ∧ 0 < EPOCHS notebook
   ∧ model tiny_state = setup_model false 0 tiny_model
   ∧ dom (env tiny_state) ⊆ list_to_set notebook_names
   ∧ (λ _ : nat, [collate tiny_examples]) 0 = collate tiny_examples :: []
   ∧ forward tiny_model (collate tiny_examples)
     = Ok (Tensor [2] (example_loss tiny_model <$> tiny_examples))
   ∧ read_benchmark simlex_fs "simlex-999.txt"
     = Ok [("old", "new", SConst 1)])
  ∧ train simlex_fs sym_sgd_step sym_parallel_forward notebook
      (λ _, [collate tiny_examples]) tiny_state
    = Raise (NameError "word_to_idx").
Proof.
  assert (H1 : 0 ≤ 1) by lia.
  assert (H2 : 0 < EPOCHS notebook) by (cbn; lia).
  assert (H3 : model tiny_state = setup_model false 0 tiny_model)
    by reflexivity.
  assert (H4 : dom (env tiny_state) ⊆ list_to_set notebook_names)
    by decide_by_compute.
  assert (H5 : (λ _ : nat, [collate tiny_examples]) 0
               = collate tiny_examples :: []) by reflexivity.
  assert (H6 : forward tiny_model (collate tiny_examples)
               = Ok (Tensor [2] (example_loss tiny_model <$> tiny_examples)))
    by (vm_compute; reflexivity).
  assert (H7 : read_benchmark simlex_fs "simlex-999.txt"
               = Ok [("old", "new", SConst 1)]) by (vm_compute; reflexivity).
  split; [exact (conj H1 (conj H2 (conj H3 (conj H4 (conj H5
                   (conj H6 H7))))))|].
  exact (unwrapped_training_stops_with_NameError simlex_fs sym_sgd_step
           sym_parallel_forward notebook false 0 tiny_model tiny_state
           (λ _, [collate tiny_examples]) _ _ _ _ _ H1 H2 H3 H4 H5 H6 H7).
Defined.

Lemma evaluation_step_never_returns {F : Type} `{Scalar F} `{Stats F}
    (read_csv : string → string → result (list (row F)))
    (e i : nat) (st : train_state) :
  env st !! "word_to_idx" = None →
  ∃ err, evaluation_step read_csv e i st = Raise err.
Proof.
  intros Hg. unfold evaluation_step.
  destruct (call_input_embeddings (model st)) as [w|err];
    cbn [mbind result_bind]; [|by eexists].
  destruct (evaluate read_csv _ "simlex-999.txt" w) as [c1|err];
    cbn [mbind result_bind]; [|by eexists].
  destruct (evaluate read_csv _ "men.txt" w) as [c2|err];
    cbn [mbind result_bind]; [|by eexists].
  destruct (evaluate read_csv _ "wordsim353.csv" w) as [c3|err];
    cbn [mbind result_bind]; [|by eexists].
  rewrite find_nearest_NameError; [by eexists|].
  by rewrite !lookup_insert_ne.
Qed.

(** X22: as long as [word_to_idx] is unbound, no training run that is
    given a first batch returns: the turn with [i = 0] always reaches
    the evaluation step or fails before it, and the evaluation step
    always raises. *)
Theorem training_never_passes_first_turn {F : Type} `{Scalar F} `{Stats F}
    (read_csv : string → string → result (list (row F)))
    (sgd_step : EmbeddingModel F → batch → EmbeddingModel F)
    (parallel_forward : nat → EmbeddingModel F → batch → result (tensor F))
    (h : hyper) (st0 : train_state) (loader : nat → list batch)
    (b : batch) (rest : list batch) :
  0 < EPOCHS h → env st0 !! "word_to_idx" = None →
  loader 0 = b :: rest →
  ∃ err, train read_csv sgd_step parallel_forward h loader st0 = Raise err.
Proof.
  intros He Hg Hb. unfold train. destruct (EPOCHS h) as [|k]; [lia|].
  cbn [seq run_epochs]. rewrite Hb. cbn [run_batches].
  unfold iteration. cbn [model env log_file saved].
  destruct (call_model _ _ _) as [lv|err];
    cbn [mbind result_bind]; [|by eexists].
  change (0 mod 100 =? 0) with true. change (0 mod 2000 =? 0) with true.
  cbn match.
  match goal with
  | |- context [evaluation_step ?rc ?e ?i ?st] =>
      destruct (evaluation_step_never_returns rc e i st) as [err Herr]
  end.
  { cbn [env bind_names foldr]. by rewrite !lookup_insert_ne. }
  rewrite Herr. by eexists.
Qed.

Lemma training_never_passes_first_turn_witness :
  (0 < EPOCHS notebook ∧ env tiny_state !! "word_to_idx" = None
   ∧ (λ _ : nat, [collate tiny_examples]) 0 = collate tiny_examples :: [])
  ∧ ∃ err, train bench_fs sym_sgd_step sym_parallel_forward notebook
             (λ _, [collate tiny_examples]) tiny_state = Raise err.
Proof.
  assert (H1 : 0 < EPOCHS notebook) by (cbn; lia).
  assert (H2 : env tiny_state !! "word_to_idx" = None)
    by (vm_compute; reflexivity).
  assert (H3 : (λ _ : nat, [collate tiny_examples]) 0
               = collate tiny_examples :: []) by reflexivity.
  split; [exact (conj H1 (conj H2 H3))|].
  exact (training_never_passes_first_turn bench_fs sym_sgd_step
           sym_parallel_forward notebook tiny_state
           (λ _, [collate tiny_examples]) _ _ H1 H2 H3).
Defined.

(** ** From the corpus to the loss *)

Lemma py_index_Ok_elem {A} (l : list A) (i : Z) x :
  py_index l i = Ok x → x ∈ l.
Proof.
  unfold py_index. cbv zeta.
  repeat case_match; try done; intros [= <-]; by eapply list_elem_of_lookup_2.
Qed.

Lemma mapM_Ok_elem {A B} (f : A → result B) (l : list A) ys :
  mapM f l = Ok ys →
  length ys = length l ∧ ∀ y, y ∈ ys → ∃ x, x ∈ l ∧ f x = Ok y.
Proof.
  revert ys. induction l as [|x l IH]; intros ys Hm.
  - cbn in Hm. injection Hm as <-. split; [done|].
    by intros y ?%elem_of_nil.
  - cbn [mapM] in Hm. destruct (f x) as [y|] eqn:Hx; [|done].
    cbn in Hm. destruct (mapM f l) as [ys'|] eqn:Hl; [|done].
    cbn in Hm. injection Hm as <-. destruct (IH ys' eq_refl) as [Hlen Hys].
    split; [cbn; by rewrite Hlen|].
    intros z [->|Hz]%elem_of_cons.
    + exists x. split; [left | done].
    + destruct (Hys z Hz) as (x' & Hx' & Hfx). exists x'.
      split; [by right | done].
Qed.

Lemma draws_elem `{Sampler F} (ws : list F) n s j :
  j ∈ (draws ws n s).1 → ∃ s', j = (draw1 ws s').1.
Proof.
  revert s. induction n as [|n IH]; intros s; cbn [draws].
  - by intros ?%elem_of_nil.
  - destruct (draw1 ws s) as [i s1] eqn:Hd. specialize (IH s1).
    destruct (draws ws n s1) as [l s2]. cbn [fst] in *.
    intros [->|Hj]%elem_of_cons; [|by apply IH].
    exists s. by rewrite Hd.
Qed.

Lemma getitem_Ok_inv `{Sampler F} (h : hyper) (ds : WordEmbeddingDataset F)
    idx s ex s' :
  getitem h ds idx s = Ok (ex, s') →
  center_word ex ∈ text_encoded ds
  ∧ length (pos_words ex) = 2 * C h
  ∧ (∀ x, x ∈ pos_words ex → x ∈ text_encoded ds)
  ∧ length (neg_words ex) = K h * (2 * C h)
  ∧ K h * (2 * C h) ≠ 0
  ∧ ∀ j, j ∈ neg_words ex → ∃ s0, j = (draw1 (ds_word_freqs ds) s0).1.
Proof.
  unfold getitem.
  destruct (py_index (text_encoded ds) idx) as [c|] eqn:Hc; [|done].
  cbn [mbind result_bind].
  destruct (pos_indices h _ idx) as [ps|] eqn:Hps; [|done].
  cbn [mbind result_bind].
  destruct (mapM _ ps) as [pos|] eqn:Hpos; [|done].
  cbn [mbind result_bind]. unfold multinomial_replacement.
  destruct (valid_weights _); cbn [negb]; [|done].
  destruct (Nat.eqb_spec (K h * length pos) 0) as [?|Hn]; [done|].
  cbn [mbind result_bind].
  destruct (draws _ _ s) as [neg s2] eqn:Hd. intros [= <- <-].
  cbn [center_word pos_words neg_words].
  assert (Hlen : length pos = 2 * C h).
  { apply mapM_Ok_elem in Hpos as [-> _].
    unfold pos_indices in Hps. apply mapM_Ok_elem in Hps as [-> _].
    rewrite length_app, !length_range. lia. }
  rewrite Hlen in *. split_and!; [|done| | |done|].
  - by eapply py_index_Ok_elem.
  - intros x Hx. apply mapM_Ok_elem in Hpos as [_ Hpos].
    destruct (Hpos x Hx) as (q & _ & Hq). by eapply py_index_Ok_elem.
  - pose proof (length_draws (ds_word_freqs ds) (K h * (2 * C h)) s) as Hl.
    by rewrite Hd in Hl.
  - intros j Hj. apply (draws_elem (ds_word_freqs ds) (K h * (2 * C h)) s).
    by rewrite Hd.
Qed.

Lemma text_encoded_in_range `{Scalar F} (h : hyper) (file : string) i :
  (Z.of_nat (MAX_VOCAB_SIZE h) ≤ 2 ^ 24)%Z →
  i ∈ text_encoded (notebook_dataset (F:=F) h file) →
  (0 ≤ i < Z.of_nat (vocab_size (text_preprocess (F:=F) h file)))%Z.
Proof.
  intros Hcap. unfold notebook_dataset, dataset_init. cbn [text_encoded].
  intros (j & -> & (t & -> & _)%list_elem_of_fmap)%list_elem_of_fmap.
  pose proof (vocab_size_bounds (F:=F) h file) as Hb.
  set (p := text_preprocess h file) in *.
  assert (Hj : (0 ≤ default (Z.of_nat (vocab_size p) - 1) (word2idx p !! t)
                < Z.of_nat (vocab_size p))%Z).
  { destruct (word2idx p !! t) as [k|] eqn:Hk; cbn [default]; [|lia].
    by apply (word2idx_contiguous h file t k) in Hk as [Hr _]. }
  unfold f32_of_int. rewrite (proj2 (Z.leb_le _ _)); [done | lia].
Qed.

(** X24: the stages fit together: for a cap of at most 2^24 words, a
    positive embedding size and a sampler that returns indices of its
    weight vector, the constructor returns a model for the file's
    vocabulary, and every batch of at least two examples that
    [__getitem__] produced on the dataset of the training file passes
    [forward] of that model; the result holds the loss of each example. *)
Theorem pipeline_batch_loss {F : Type} `{Scalar F} `{Sampler F}
    (h : hyper) (file : string) (init_in init_out : nat → nat → F)
    (exs : list example) :
  (Z.of_nat (MAX_VOCAB_SIZE h) ≤ 2 ^ 24)%Z →
  0 < EMBEDDING_SIZE h →
  (∀ (ws : list F) s, ws ≠ [] →
     (0 ≤ (draw1 ws s).1 < Z.of_nat (length ws))%Z) →
  Forall (λ ex, ∃ idx s s',
            getitem h (notebook_dataset (F:=F) h file) idx s = Ok (ex, s'))
    exs →
  2 ≤ length exs →
  ∃ m, EmbeddingModel_init (vocab_size (text_preprocess (F:=F) h file))
         (EMBEDDING_SIZE h) init_in init_out = Ok m
    ∧ forward m (collate exs)
      = Ok (Tensor [length exs] (example_loss m <$> exs)).
Proof.
  intros Hcap Hsize Hdraw Hexs Hlen.
  eexists. split; [by apply EmbeddingModel_init_Ok|].
  set (m := {| in_embed := _; out_embed := _ |}).
  set (p := text_preprocess (F:=F) h file) in *.
  set (ds := notebook_dataset (F:=F) h file) in *.
  assert (HV : ∀ init : nat → nat → F,
            length ((λ i, init i <$> seq 0 (EMBEDDING_SIZE h))
                      <$> seq 0 (vocab_size p)) = vocab_size p).
  { intros init. by rewrite length_fmap, length_seq. }
  assert (Hws : length (ds_word_freqs ds) = vocab_size p).
  { unfold ds, notebook_dataset, dataset_init. cbn [ds_word_freqs].
    unfold p, text_preprocess. cbn. unfold keys, values.
    by rewrite !length_fmap. }
  pose proof (vocab_size_bounds (F:=F) h file) as Hb. fold p in Hb.
  assert (HKC : K h * (2 * C h) ≠ 0).
  { destruct exs as [|ex exs']; [cbn in Hlen; lia|].
    apply Forall_cons in Hexs as [(idx & s & s' & Hget) _].
    by apply getitem_Ok_inv in Hget as (_ & _ & _ & _ & Hn & _). }
  apply (forward_losses m (2 * C h) (K h * (2 * C h)) exs).
  - apply Embedding_init_wf.
  - eapply Forall_impl; [exact Hexs|].
    intros ex (idx & s & s' & Hget).
    apply getitem_Ok_inv in Hget as (Hc & Hp & Hpos & Hn & _ & Hneg).
    unfold example_in_range, in_range. cbn [m Embedding_init
      in_embed out_embed weight]. rewrite !HV.
    split_and!; [| |done| |done|].
    + by apply (text_encoded_in_range h file).
    + by apply (text_encoded_in_range h file).
    + apply Forall_forall. intros x Hx.
      by apply (text_encoded_in_range h file), Hpos.
    + apply Forall_forall. intros j Hj.
      destruct (Hneg j Hj) as [s0 ->]. rewrite <- Hws. apply Hdraw.
      intros Hnil. apply (f_equal length) in Hnil. rewrite Hws in Hnil.
      change (length (@nil F)) with 0 in Hnil. lia.
  - intros ->. cbn in Hlen. lia.
  - lia.
  - lia.
  - lia.
Qed.

Lemma abc_examples_from_getitem :
  Forall (λ ex, ∃ idx s s',
            getitem notebook (notebook_dataset (F:=sym) notebook
                                "a b c a b c a b c") idx s = Ok (ex, s'))
    abc_examples.
Proof.
  repeat constructor.
  - exists 0%Z, (0 : @rng sym cyclic_sampler). eexists.
    vm_compute. reflexivity.
  - exists 1%Z, (0 : @rng sym cyclic_sampler). eexists.
    vm_compute. reflexivity.
Qed.

Lemma cyclic_sampler_in_range (ws : list sym) (s : rng) :
  ws ≠ [] → (0 ≤ (draw1 ws s).1 < Z.of_nat (length ws))%Z.
Proof.
  intros Hws. cbn. destruct ws as [|w ws]; [done|].
  pose proof (Nat.mod_upper_bound s (length (w :: ws)) ltac:(cbn; lia)).
  lia.
Qed.

Lemma pipeline_batch_loss_witness :
  ((Z.of_nat (MAX_VOCAB_SIZE notebook) ≤ 2 ^ 24)%Z
   ∧ 0 < EMBEDDING_SIZE notebook
   ∧ (∀ (ws : list sym) (s : rng), ws ≠ [] →
        (0 ≤ (draw1 ws s).1 < Z.of_nat (length ws))%Z)
   ∧ Forall (λ ex, ∃ idx s s',
               getitem notebook (notebook_dataset (F:=sym) notebook
                                   "a b c a b c a b c") idx s = Ok (ex, s'))
       abc_examples
   ∧ 2 ≤ length abc_examples)
  ∧ ∃ m, EmbeddingModel_init
           (vocab_size (text_preprocess (F:=sym) notebook "a b c a b c a b c"))
           (EMBEDDING_SIZE notebook)
           (λ i j, SConst (Z.of_nat (i + j))) (λ i j, SConst (Z.of_nat (i * j)))
         = Ok m
      ∧ forward m (collate abc_examples)
        = Ok (Tensor [length abc_examples] (example_loss m <$> abc_examples)).
Proof.
  assert (H1 : (Z.of_nat (MAX_VOCAB_SIZE notebook) ≤ 2 ^ 24)%Z)
    by (vm_compute; discriminate).
  assert (H2 : 0 < EMBEDDING_SIZE notebook) by (cbn; lia).
  assert (H4 : 2 ≤ length abc_examples) by (cbn; lia).
  split; [exact (conj H1 (conj H2 (conj cyclic_sampler_in_range
                   (conj abc_examples_from_getitem H4))))|].
  exact (pipeline_batch_loss notebook "a b c a b c a b c"
           (λ i j, SConst (Z.of_nat (i + j))) (λ i j, SConst (Z.of_nat (i * j)))
           abc_examples H1 H2 cyclic_sampler_in_range
           abc_examples_from_getitem H4).
Defined.

(** ** Ties in [most_common] *)

Lemma insert_desc_sublist x (s : odict) : s `sublist_of` insert_desc x s.
Proof.
  induction s as [|y s IH]; cbn [insert_desc]; [apply sublist_nil_l|].
  destruct (x.2 <? y.2)%Z; [by apply sublist_skip | by apply sublist_cons].
Qed.

Lemma insert_desc_before x (s : odict) b :
  b ∈ s → (b.2 ≤ x.2)%Z → [x; b] `sublist_of` insert_desc x s.
Proof.
  induction s as [|y s IH]; intros Hb Hle; [by apply elem_of_nil in Hb|].
  cbn [insert_desc]. destruct (Z.ltb_spec x.2 y.2) as [Hlt|Hge].
  - apply sublist_cons. apply IH; [|done].
    apply elem_of_cons in Hb as [->|Hb]; [lia | done].
  - apply sublist_skip. by apply singleton_sublist_l.
Qed.

Lemma sort_desc_stable (c : odict) a b :
  [a; b] `sublist_of` c → (b.2 ≤ a.2)%Z → [a; b] `sublist_of` sort_desc c.
Proof.
  induction c as [|x c IH]; intros Hab Hle; [by apply sublist_nil_r in Hab|].
  cbn [sort_desc]. apply sublist_cons_r in Hab as [Hab|(l' & [= <- <-] & Hb)].
  - etrans; [by apply IH | apply insert_desc_sublist].
  - apply insert_desc_before; [|done].
    rewrite sort_desc_perm. by apply singleton_sublist_l.
Qed.

Lemma keys_Counter_app (l l' : list string) :
  ∃ extra, keys (Counter (l ++ l')) = keys (Counter l) ++ extra.
Proof.
  induction l' as [|w l' [extra IH]] using rev_ind.
  - exists []. by rewrite !app_nil_r.
  - rewrite app_assoc, Counter_snoc, keys_counter_add, IH.
    case_decide; [by exists extra|].
    exists (extra ++ [w]). by rewrite app_assoc.
Qed.

Lemma elem_of_keys_Counter (text : list string) w :
  w ∈ keys (Counter text) ↔ w ∈ text.
Proof.
  unfold keys. rewrite list_elem_of_fmap. split.
  - intros (kv & -> & Hkv). by apply elem_of_Counter in Hkv as [? _].
  - intros Hw. exists (w, occurrences w text). split; [done|].
    by apply elem_of_Counter.
Qed.

Lemma keys_Counter_first_seen (pre post : list string) w1 w2 :
  w1 ∉ pre → w2 ∉ pre → w2 ∈ post → w1 ≠ w2 →
  [w1; w2] `sublist_of` keys (Counter (pre ++ w1 :: post)).
Proof.
  intros H1 H2 Hin Hne.
  destruct (keys_Counter_app (pre ++ [w1]) post) as [extra Hk].
  rewrite <- app_assoc in Hk. cbn [app] in Hk.
  assert (Hw2 : w2 ∈ keys (Counter (pre ++ w1 :: post))).
  { apply elem_of_keys_Counter, elem_of_app. right. by right. }
  rewrite Hk in *. rewrite Counter_snoc, keys_counter_add in *.
  rewrite decide_False in * by by rewrite elem_of_keys_Counter.
  rewrite !elem_of_app, elem_of_keys_Counter, list_elem_of_singleton in Hw2.
  destruct Hw2 as [[?|?]|Hw2]; [done|congruence|].
  rewrite <- app_assoc. apply sublist_inserts_l. cbn [app].
  apply sublist_skip. by apply singleton_sublist_l.
Qed.

Lemma sublist_keys_pairs (d : odict) k1 k2 :
  [k1; k2] `sublist_of` keys d →
  ∃ v1 v2, [(k1, v1); (k2, v2)] `sublist_of` d.
Proof.
  induction d as [|[k v] d IH]; cbn; intros Hs;
    [by apply sublist_nil_r in Hs|].
  apply sublist_cons_r in Hs as [Hs|(l' & [= <- <-] & Hb)].
  - destruct (IH Hs) as (v1 & v2 & Hd). exists v1, v2. by apply sublist_cons.
  - apply singleton_sublist_l, list_elem_of_fmap in Hb as ([k' v2] & -> & Hb).
    exists v, v2. apply sublist_skip. by apply singleton_sublist_l.
Qed.

(** X25: ties in frequency are broken by encounter order.  Of two words
    that occur equally often (or the earlier one more often), the one
    first met earlier in the text is ranked first: whenever the later
    one is kept under its own name, so is the earlier one, and it
    precedes the later one in the vocabulary. *)
Theorem ties_keep_encounter_order (h : hyper) (pre post : list string)
    (w1 w2 : string) :
  w1 ∉ pre → w2 ∉ pre → w2 ∈ post → w1 ≠ w2 →
  (occurrences w2 (pre ++ w1 :: post)
   ≤ occurrences w1 (pre ++ w1 :: post))%Z →
  w2 ∈ kept_words h (pre ++ w1 :: post) →
  [w1; w2] `sublist_of` kept_words h (pre ++ w1 :: post).
Proof.
  intros H1 H2 Hin Hne Hocc Hkept. set (text := pre ++ w1 :: post) in *.
  destruct (sublist_keys_pairs (Counter text) w1 w2) as (c1 & c2 & Hs).
  { by apply keys_Counter_first_seen. }
  assert (Hc1 : c1 = occurrences w1 text).
  { assert (Hm : (w1, c1) ∈ Counter text).
    { eapply elem_of_sublist; [|exact Hs]. left. }
    by apply elem_of_Counter in Hm as [_ ?]. }
  assert (Hc2 : c2 = occurrences w2 text).
  { assert (Hm : (w2, c2) ∈ Counter text).
    { eapply elem_of_sublist; [|exact Hs]. right. left. }
    by apply elem_of_Counter in Hm as [_ ?]. }
  subst c1 c2. apply sort_desc_stable in Hs; [|done].
  unfold kept_words, most_common, keys in *.
  rewrite <- (take_drop (MAX_VOCAB_SIZE h - 1) (sort_desc (Counter text)))
    in Hs.
  apply sublist_app_r in Hs as (l1 & l2 & Hl & Hs1 & Hs2).
  assert (Hnot : (w2, occurrences w2 text) ∉ l2).
  { intros Hm. eapply elem_of_sublist in Hm; [|exact Hs2].
    apply list_elem_of_fmap in Hkept as ([w c] & -> & Hk).
    pose proof (NoDup_keys_Counter text) as Hnd.
    rewrite <- (fmap_Permutation fst _ _ (sort_desc_perm (Counter text)))
      in Hnd.
    rewrite <- (take_drop (MAX_VOCAB_SIZE h - 1)
                  (sort_desc (Counter text))), fmap_app in Hnd.
    apply NoDup_app in Hnd as (_ & Hdis & _).
    apply (Hdis w).
    - by apply (list_elem_of_fmap_2 fst) in Hk.
    - by apply (list_elem_of_fmap_2 fst) in Hm. }
  destruct l1 as [|a [|b l1]]; cbn [app] in Hl.
  - subst l2. exfalso. apply Hnot. right. left.
  - injection Hl as <- <-. exfalso. apply Hnot. left.
  - injection Hl as <- <- Hl. apply (fmap_sublist fst) in Hs1.
    etrans; [|exact Hs1]. cbn. apply sublist_skip, sublist_skip, sublist_nil_l.
Qed.

Lemma ties_keep_encounter_order_witness :
  (("b" ∉ ["x"]) ∧ ("a" ∉ ["x"]) ∧ "a" ∈ ["a"; "b"; "c"; "a"]
   ∧ "b" ≠ "a"
   ∧ (occurrences "a" (["x"] ++ "b" :: ["a"; "b"; "c"; "a"])
      ≤ occurrences "b" (["x"] ++ "b" :: ["a"; "b"; "c"; "a"]))%Z
   ∧ "a" ∈ kept_words (Hyper 2 1 2 3 128 100)
             (["x"] ++ "b" :: ["a"; "b"; "c"; "a"]))
  ∧ ["b"; "a"] `sublist_of`
      kept_words (Hyper 2 1 2 3 128 100)
        (["x"] ++ "b" :: ["a"; "b"; "c"; "a"]).
Proof.
  assert (H1 : "b" ∉ ["x"]) by decide_by_compute.
  assert (H2 : "a" ∉ ["x"]) by decide_by_compute.
  assert (H3 : "a" ∈ ["a"; "b"; "c"; "a"]) by decide_by_compute.
  assert (H4 : "b" ≠ "a") by discriminate.
  assert (H5 : (occurrences "a" (["x"] ++ "b" :: ["a"; "b"; "c"; "a"])
                ≤ occurrences "b" (["x"] ++ "b" :: ["a"; "b"; "c"; "a"]))%Z)
    by (vm_compute; discriminate).
  assert (H6 : "a" ∈ kept_words (Hyper 2 1 2 3 128 100)
                       (["x"] ++ "b" :: ["a"; "b"; "c"; "a"]))
    by decide_by_compute.
  split; [exact (conj H1 (conj H2 (conj H3 (conj H4 (conj H5 H6)))))|].
  exact (ties_keep_encounter_order (Hyper 2 1 2 3 128 100) ["x"]
           ["a"; "b"; "c"; "a"] "b" "a" H1 H2 H3 H4 H5 H6).
Defined.
